(** * barcode_validator: the validation result and the taxonomy resolver

    A shallow embedding of [barcode_validator/result.py] and of the
    resolver functions of [barcode_validator/taxonomy.py], with the
    properties of the design document stated and settled against them.

    Python objects are mutable and methods may raise: a method is a
    computation in a state-and-exception monad [M S], where the state [S]
    holds the object the method works on, the list objects of the program
    and the records handed to [logging].  A list is an object: a value
    refers to it, an attribute that is assigned a list refers to the
    caller's list, and [append] changes it for everyone who refers to it.
    Sets are [gset], dictionaries are [gmap].

    Text: a [string] holds a Python [str] in its UTF-8 encoding. *)

From Stdlib Require Import ZArith.
From stdpp Require Import base option list strings gmap sets.

Local Open Scope string_scope.
Local Open Scope list_scope.
Local Open Scope Z_scope.

(** ** Python values, exceptions and effects *)

Module Py.

(** The exceptions the modelled code raises or catches.  All of them are
    subclasses of [Exception]. *)
Inductive exn :=
| ValueError (msg : string)
| KeyError (key : string)
| Error (cls msg : string).

(** [str(e)] *)
Definition str_exn (e : exn) : string :=
  match e with
  | ValueError msg => msg
  | KeyError key => "'" +:+ key +:+ "'"
  | Error _ msg => msg
  end.

(** [logging]: the records of level WARNING and above, oldest first.
    Calls to [logging.debug] and [logging.info] are left out: they change
    nothing the program reads back. *)
Inductive levelname := WARNING | ERROR.

Record LogRecord (Msg : Type) := mkLogRecord {
  level : levelname;
  msg : Msg }.
Global Arguments mkLogRecord {Msg} _ _.
Global Arguments level {Msg} _.
Global Arguments msg {Msg} _.

(** A computation over a state [S]: it ends with a value or with a raised
    exception, and with the state it leaves behind either way. *)
Definition M (S A : Type) : Type := S → (exn + A) * S.

Definition ret {S A} (a : A) : M S A := λ s, (inr a, s).
Definition bind {S A B} (m : M S A) (k : A → M S B) : M S B :=
  λ s, match m s with
       | (inr a, s') => k a s'
       | (inl e, s') => (inl e, s')
       end.
Definition raise {S A} (e : exn) : M S A := λ s, (inl e, s).

(** [try: m  except Exception as e: h e] *)
Definition try_except {S A} (m : M S A) (h : exn → M S A) : M S A :=
  λ s, match m s with
       | (inr a, s') => (inr a, s')
       | (inl e, s') => h e s'
       end.

Global Instance M_ret {S} : MRet (M S) := @ret S.
Global Instance M_bind {S} : MBind (M S) := λ A B k m, bind m k.

(** A run that ends with an exception. *)
Definition raises {S A} (m : M S A) (s : S) : Prop := ∃ e, (m s).1 = inl e.

(** The identity of a list object. *)
Definition loc := nat.

Section values.
Context (Taxon : Type).

(** The values a caller can hand to a setter.  [PyList l] refers to the
    list object [l]: two values with the same [l] are one and the same
    list, whose items are read from the state.  [PyObject cls] stands for
    an instance of any other class [cls] (a float, a dict, ...): the code
    below only asks such a value for its class. *)
Inductive value :=
| PyNone
| PyBool (b : bool)
| PyInt (n : Z)
| PyStr (s : string)
| PyTaxon (t : Taxon)
| PyList (l : loc)
| PyObject (cls : string).

(** [isinstance(v, int)], with the integer [v] compares as: [bool] is a
    subclass of [int], [True] is 1 and [False] is 0. *)
Definition as_int (v : value) : option Z :=
  match v with
  | PyInt n => Some n
  | PyBool b => Some (Z.b2z b)
  | _ => None
  end.

(** [isinstance(v, Taxon)] *)
Definition as_taxon (v : value) : option Taxon :=
  match v with
  | PyTaxon t => Some t
  | _ => None
  end.
End values.

Global Arguments PyNone {Taxon}.
Global Arguments PyBool {Taxon} _.
Global Arguments PyInt {Taxon} _.
Global Arguments PyStr {Taxon} _.
Global Arguments PyTaxon {Taxon} _.
Global Arguments PyList {Taxon} _.
Global Arguments PyObject {Taxon} _.
Global Arguments as_int {Taxon} _.
Global Arguments as_taxon {Taxon} _.

(** [v == v']: the equality of the Taxon class between two taxa, no
    equality between a Taxon and a value of another class. *)
Global Instance value_eq_dec {Taxon} `{EqDecision Taxon} :
  EqDecision (value Taxon).
Proof. unfold loc. solve_decision. Defined.

End Py.

Import Py.

(** ** The configuration

    Modelled from the spec: the [Config] singleton
    ([barcode_validator/config.py]) is not part of the sources; the functions
    below read from it a minimum length, a target rank and the name of the
    identification method: a field [k] stands for [Config().get('k')]. *)

Record Config := mkConfig {
  min_seq_length : Z;
  level : string;
  idcheck : string }.

(** ** result.py *)

Module Result.
Section result.
(** Modelled from the spec: the class [Taxon] of package [nbt] is not
    part of the sources.  An instance is a value compared with [==], here
    a decidable equality, and it is truthy, as every Python object whose
    class does not say otherwise. *)
Context {Taxon : Type} `{EqDecision Taxon}.

(** The attributes [_obs_taxon] and [_stop_codons] refer to list
    objects. *)
Record DNAAnalysisResult := mkResult {
  process_id : string;
  _seq_length : option Z;
  _obs_taxon : loc;
  _exp_taxon : option Taxon;
  _species : option Taxon;
  _stop_codons : loc;
  _ambiguities : option Z }.

(** The state of a method call: the object, the list objects of the
    program with their items, and the log.  A list object that [lists] does
    not mention is empty. *)
Record World := mkWorld {
  self : DNAAnalysisResult;
  lists : gmap loc (list (value Taxon));
  logging : list (LogRecord (value Taxon)) }.

(** The items of the list object [l]. *)
Definition items (w : World) (l : loc) : list (value Taxon) := lists w !!! l.

(** [DNAAnalysisResult(process_id)], among the list objects [heap]: the
    two [[]] of [__init__] are two new list objects. *)
Definition __init__ (process_id : string)
    (heap : gmap loc (list (value Taxon)))
    (log : list (LogRecord (value Taxon))) : World :=
  let obs := fresh (dom heap) in
  let heap := <[obs := []]> heap in
  let stops := fresh (dom heap) in
  {| self := {| process_id := process_id;
                _seq_length := None;
                _obs_taxon := obs;
                _exp_taxon := None;
                _species := None;
                _stop_codons := stops;
                _ambiguities := None |};
     lists := <[stops := []]> heap;
     logging := log |}.

Definition get_world : M World World := λ w, (inr w, w).
Definition put_self (r : DNAAnalysisResult) : M World unit :=
  λ w, (inr tt, {| self := r; lists := lists w; logging := logging w |}).
(** [l.append(v)] *)
Definition append (l : loc) (v : value Taxon) : M World unit :=
  λ w, (inr tt, {| self := self w;
                   lists := <[l := items w l ++ [v]]> (lists w);
                   logging := logging w |}).
Definition logging_error (m : value Taxon) : M World unit :=
  λ w, (inr tt, {| self := self w;
                   lists := lists w;
                   logging := logging w ++ [mkLogRecord ERROR m] |}).

(** [isinstance(v, Taxon)] and [isinstance(v, int) and v >= 0] *)
Definition is_Taxon (v : value Taxon) : bool :=
  match as_taxon v with Some _ => true | None => false end.
Definition is_position (v : value Taxon) : bool :=
  match as_int v with Some n => bool_decide (0 ≤ n) | None => false end.

(** [isinstance(v, list) and all(test(item) for item in v)]: the list
    object [v] refers to, when it is one and its items pass. *)
Definition as_list_of (test : value Taxon → bool) (w : World)
    (v : value Taxon) : option loc :=
  match v with
  | PyList l => if forallb test (items w l) then Some l else None
  | _ => None
  end.

(** *** Properties and their setters *)

Definition seq_length (r : DNAAnalysisResult) : option Z := _seq_length r.

Definition set_seq_length (v : value Taxon) : M World unit :=
  match as_int v with
  | Some n =>
      if bool_decide (n ≤ 0)
      then raise (ValueError "seq_length must be a positive integer")
      else w ← get_world;
           let r := self w in
           put_self {| process_id := process_id r;
                       _seq_length := Some n;
                       _obs_taxon := _obs_taxon r;
                       _exp_taxon := _exp_taxon r;
                       _species := _species r;
                       _stop_codons := _stop_codons r;
                       _ambiguities := _ambiguities r |}
  | None => raise (ValueError "seq_length must be a positive integer")
  end.

(** The getter returns the list object; what is read here is its items. *)
Definition obs_taxon (w : World) : list (value Taxon) :=
  items w (_obs_taxon (self w)).

Definition set_obs_taxon (taxa : value Taxon) : M World unit :=
  w ← get_world;
  match as_list_of is_Taxon w taxa with
  | None =>
      logging_error taxa;;
      raise (ValueError "obs_taxon must be a list of Taxon objects")
  | Some l =>
      let r := self w in
      put_self {| process_id := process_id r;
                  _seq_length := _seq_length r;
                  _obs_taxon := l;
                  _exp_taxon := _exp_taxon r;
                  _species := _species r;
                  _stop_codons := _stop_codons r;
                  _ambiguities := _ambiguities r |}
  end.

Definition add_obs_taxon (taxon : value Taxon) : M World unit :=
  match as_taxon taxon with
  | None => raise (ValueError "Taxon must be a Taxon object")
  | Some _ =>
      w ← get_world;
      if bool_decide (taxon ∈ obs_taxon w)
      then mret tt
      else append (_obs_taxon (self w)) taxon
  end.

Definition exp_taxon (r : DNAAnalysisResult) : option Taxon := _exp_taxon r.

Definition set_exp_taxon (taxon : value Taxon) : M World unit :=
  match as_taxon taxon with
  | None => raise (ValueError "exp_taxon must be a Taxon object")
  | Some t =>
      w ← get_world;
      let r := self w in
      put_self {| process_id := process_id r;
                  _seq_length := _seq_length r;
                  _obs_taxon := _obs_taxon r;
                  _exp_taxon := Some t;
                  _species := _species r;
                  _stop_codons := _stop_codons r;
                  _ambiguities := _ambiguities r |}
  end.

Definition species (r : DNAAnalysisResult) : option Taxon := _species r.

Definition set_species (v : value Taxon) : M World unit :=
  match as_taxon v with
  | None => raise (ValueError "species must be a Taxon object")
  | Some t =>
      w ← get_world;
      let r := self w in
      put_self {| process_id := process_id r;
                  _seq_length := _seq_length r;
                  _obs_taxon := _obs_taxon r;
                  _exp_taxon := _exp_taxon r;
                  _species := Some t;
                  _stop_codons := _stop_codons r;
                  _ambiguities := _ambiguities r |}
  end.

Definition stop_codons (w : World) : list (value Taxon) :=
  items w (_stop_codons (self w)).

Definition set_stop_codons (codon_positions : value Taxon) : M World unit :=
  w ← get_world;
  match as_list_of is_position w codon_positions with
  | None => raise (ValueError "stop_codons must be a list of non-negative integers")
  | Some l =>
      let r := self w in
      put_self {| process_id := process_id r;
                  _seq_length := _seq_length r;
                  _obs_taxon := _obs_taxon r;
                  _exp_taxon := _exp_taxon r;
                  _species := _species r;
                  _stop_codons := l;
                  _ambiguities := _ambiguities r |}
  end.

Definition ambiguities (r : DNAAnalysisResult) : option Z := _ambiguities r.

Definition set_ambiguities (n_ambiguities : value Taxon) : M World unit :=
  match as_int n_ambiguities with
  | Some n =>
      if bool_decide (n < 0)
      then raise (ValueError "ambiguities must be a non-negative integer")
      else w ← get_world;
           let r := self w in
           put_self {| process_id := process_id r;
                       _seq_length := _seq_length r;
                       _obs_taxon := _obs_taxon r;
                       _exp_taxon := _exp_taxon r;
                       _species := _species r;
                       _stop_codons := _stop_codons r;
                       _ambiguities := Some n |}
  | None => raise (ValueError "ambiguities must be a non-negative integer")
  end.

Definition add_stop_codon (position : value Taxon) : M World unit :=
  match as_int position with
  | Some n =>
      if bool_decide (n < 0)
      then raise (ValueError "Stop codon position must be a non-negative integer")
      else w ← get_world;
           append (_stop_codons (self w)) position
  | None => raise (ValueError "Stop codon position must be a non-negative integer")
  end.

(** *** The checks *)

Definition check_length (config : Config) (r : DNAAnalysisResult) : bool :=
  let min_length := min_seq_length config in
  match seq_length r with
  | Some n => bool_decide (min_length ≤ n)
  | None => false
  end.

(** Truth values: a list is truthy when it is not empty, [None] is
    falsy, a Taxon is truthy. *)
Definition bool_of_list {A} (l : list A) : bool :=
  match l with [] => false | _ :: _ => true end.
Definition bool_of_optional {A} (o : option A) : bool :=
  match o with None => false | Some _ => true end.

(** [x in l], where [x] is a Taxon or [None] *)
Definition optional_in (o : option Taxon) (l : list (value Taxon)) : bool :=
  match o with
  | Some t => bool_decide (PyTaxon t ∈ l)
  | None => false
  end.

Definition check_taxonomy (w : World) : bool :=
  if bool_of_list (obs_taxon w) && bool_of_optional (exp_taxon (self w))
  then optional_in (exp_taxon (self w)) (obs_taxon w)
  else false.

Definition check_pseudogene (w : World) : bool :=
  bool_decide (length (stop_codons w) = 0%nat).

Definition passes_all_checks (config : Config) (w : World) : bool :=
  check_length config (self w) && check_taxonomy w && check_pseudogene w.

(** *** Callers

    A caller that makes one call after the other and carries on when a
    call raises; what it is left with is the object, the lists and the
    log. *)
Inductive call :=
| Set_seq_length (v : value Taxon)
| Set_obs_taxon (v : value Taxon)
| Add_obs_taxon (v : value Taxon)
| Set_exp_taxon (v : value Taxon)
| Set_species (v : value Taxon)
| Set_stop_codons (v : value Taxon)
| Set_ambiguities (v : value Taxon)
| Add_stop_codon (v : value Taxon).

Definition perform (c : call) : M World unit :=
  match c with
  | Set_seq_length v => set_seq_length v
  | Set_obs_taxon v => set_obs_taxon v
  | Add_obs_taxon v => add_obs_taxon v
  | Set_exp_taxon v => set_exp_taxon v
  | Set_species v => set_species v
  | Set_stop_codons v => set_stop_codons v
  | Set_ambiguities v => set_ambiguities v
  | Add_stop_codon v => add_stop_codon v
  end.

Fixpoint perform_all (cs : list call) (w : World) : World :=
  match cs with
  | [] => w
  | c :: cs => perform_all cs (perform c w).2
  end.

(** *** The contract of the setters

    What the design document asks of the value of each call: a positive
    integer for the length, a non-negative integer for a count or a
    position, a Taxon for a Taxon field, a list of these for a list. *)
Definition positive_integer (v : value Taxon) : Prop :=
  ∃ n, as_int v = Some n ∧ 0 < n.
Definition non_negative_integer (v : value Taxon) : Prop :=
  ∃ n, as_int v = Some n ∧ 0 ≤ n.
Definition is_taxon (v : value Taxon) : Prop :=
  ∃ t, v = PyTaxon t.
Definition list_of (P : value Taxon → Prop) (w : World) (v : value Taxon) : Prop :=
  ∃ l, v = PyList l ∧ Forall P (items w l).

Definition valid (w : World) (c : call) : Prop :=
  match c with
  | Set_seq_length v => positive_integer v
  | Set_obs_taxon v => list_of is_taxon w v
  | Add_obs_taxon v => is_taxon v
  | Set_exp_taxon v => is_taxon v
  | Set_species v => is_taxon v
  | Set_stop_codons v => list_of non_negative_integer w v
  | Set_ambiguities v => non_negative_integer v
  | Add_stop_codon v => non_negative_integer v
  end.

(** The four verdicts of a result, side by side. *)
Definition verdicts (config : Config) (w : World)
  : bool * bool * bool * bool :=
  (check_length config (self w), check_taxonomy w, check_pseudogene w,
   passes_all_checks config w).
End result.

Global Arguments DNAAnalysisResult : clear implicits.
Global Arguments World : clear implicits.
Global Arguments call : clear implicits.
End Result.

(** ** taxonomy.py *)

Module Taxonomy.

(** The taxonomy tree, as the resolver uses it.  The tree classes come
    from packages [nbt] and [Bio.Phylo], which are not part of the
    sources: the resolver is stated over their interface.  A tip handed
    to [root_get_path] comes from [get_terminals] of the same tree. *)
Class TaxonomyTree (Tree Node : Type) := {
  (** [tree.get_terminals()] *)
  get_terminals : Tree → list Node;
  (** [tree.root.get_path(tip)] *)
  root_get_path : Tree → Node → list Node;
  (** [node.name], [node.taxonomic_rank], [node.guids] *)
  name : Node → string;
  taxonomic_rank : Node → string;
  guids : Node → gmap string string }.

(** [str.lower], on ASCII text: the rank names of the configuration. *)
Definition lower_ascii (a : Ascii.ascii) : Ascii.ascii :=
  let n := Ascii.N_of_ascii a in
  if ((65 <=? n) && (n <=? 90))%N then Ascii.ascii_of_N (n + 32) else a.

Fixpoint lower (s : string) : string :=
  match s with
  | EmptyString => EmptyString
  | String a s' => String (lower_ascii a) (lower s')
  end.

(** Iterating over a [str] yields its characters, each a [str] of
    length one (a character is a byte here: ASCII names). *)
Fixpoint chars (s : string) : list string :=
  match s with
  | EmptyString => []
  | String a s' => String a EmptyString :: chars s'
  end.

(** [set.update(iterable)] with a [str] for the iterable *)
Definition set_update_str (taxa : gset string) (s : string) : gset string :=
  taxa ∪ list_to_set (chars s).

Section resolver.
Context {Tree Node : Type} `{TaxonomyTree Tree Node}.

(** The first loop of [collect_lineages]: the tips whose 'taxon' guid
    is one of [taxids], in the order of [get_terminals]; a tip without
    that guid raises [KeyError]. *)
Fixpoint collect_tips (taxids : gset string) (terminals tips : list Node)
  : exn + list Node :=
  match terminals with
  | [] => inr tips
  | tip :: terminals =>
      match guids tip !! "taxon" with
      | None => inl (KeyError "taxon")
      | Some taxid =>
          collect_tips taxids terminals
            (if bool_decide (taxid ∈ taxids) then tips ++ [tip] else tips)
      end
  end.

(** The inner loop: the nodes of one path. *)
Definition collect_path (config : Config) (taxa : gset string)
    (path : list Node) : gset string :=
  foldl (λ taxa node,
           if bool_decide (taxonomic_rank node = lower (level config))
           then set_update_str taxa (name node)
           else taxa)
        taxa path.

Definition collect_lineages (config : Config) (taxids : gset string)
    (tree : Tree) : exn + list string :=
  match collect_tips taxids (get_terminals tree) [] with
  | inl e => inl e
  | inr tips =>
      let taxa :=
        foldl (λ taxa tip, collect_path config taxa (root_get_path tree tip))
              ∅ tips in
      inr (elements taxa)
  end.
End resolver.

(** *** Sequence identification *)

Section seqid.
(** The services behind the identification methods: the state [Net] of
    the world outside the program, and the calls that read and change
    it.  Each call returns or raises. *)
Context {Sequence Net Tree : Type}.

(** [NCBIWWW.qblast], [NCBIXML.parse] and [next]: the accessions of the
    alignments of the first record, best hit first. *)
Variable qblast : Sequence → M Net (list string).
(** [Entrez.read(Entrez.esummary(db="nucleotide", id=accession))[0]['TaxId']] *)
Variable esummary : string → M Net string.
(** [Entrez.read(Entrez.efetch(db="taxonomy", id=taxon_id, retmode="xml"))[0]['LineageEx']],
    as the pairs of ['Rank'] and ['ScientificName'], in order *)
Variable efetch : string → M Net (list (string * string)).
Record World := mkWorld {
  net : Net;
  logging : list (LogRecord string) }.

Definition on_net {A} (m : M Net A) : M World A :=
  λ w, let '(r, n) := m (net w) in (r, {| net := n; logging := logging w |}).

Definition log (l : levelname) (m : string) : M World unit :=
  λ w, (inr tt, {| net := net w;
                   logging := logging w ++ [mkLogRecord l m] |}).

(** The body of the [try] block of [run_blast]: the lineage of one hit,
    a dictionary from rank to scientific name, appended to [lineages]. *)
Definition fetch_lineage (accession : string)
    (lineages : list (gmap string string))
  : M World (list (gmap string string)) :=
  taxon_id ← on_net (esummary accession);
  lineage_ex ← on_net (efetch taxon_id);
  let lineage : gmap string string :=
    foldl (λ d rank, <[rank.1 := rank.2]> d) ∅ lineage_ex in
  mret (lineages ++ [lineage]).

(** [for hit in top_hits: try: ... except Exception as e: logging.error(...)] *)
Fixpoint fetch_lineages (top_hits : list string)
    (lineages : list (gmap string string))
  : M World (list (gmap string string)) :=
  match top_hits with
  | [] => mret lineages
  | accession :: top_hits =>
      lineages ←
        try_except (fetch_lineage accession lineages)
          (λ e, log ERROR ("Error fetching taxonomy for " +:+ accession
                             +:+ ": " +:+ str_exn e);;
                mret lineages);
      fetch_lineages top_hits lineages
  end.

(** [list(set(lineage.get(target_level) for lineage in lineages
              if target_level in lineage))] *)
Definition taxa_at (target_level : string)
    (lineages : list (gmap string string)) : list string :=
  elements (list_to_set (omap (λ lineage : gmap string string,
                                 lineage !! target_level) lineages)
            : gset string).

(** [run_blast].  The address it hands to [Entrez] and the pause after
    each hit belong to the services and are not modelled. *)
Definition run_blast (config : Config) (sequence : Sequence)
  : M World (list string) :=
  let target_level := level config in
  alignments ← on_net (qblast sequence);
  let top_hits := take 10 alignments in
  lineages ← fetch_lineages top_hits [];
  let taxa_at_level := taxa_at target_level lineages in
  match taxa_at_level with
  | _ :: _ => mret taxa_at_level
  | [] =>
      log WARNING ("No taxa found at " +:+ target_level +:+ " level");;
      mret ["Unknown"]
  end.

(** [run_boldigger2] and [run_localblast], for the dispatcher: each
    returns its result or raises, and may use the services and write to the
    log on its way.  [run_localblast] is spelled out further down. *)
Variable run_boldigger2 : Sequence → M World (option (list string)).
Variable run_localblast : Sequence → Tree → M World (list string).

(** [run_seqid]: what it returns is [Some] result, or [None] where the
    Python function returns [None]. *)
Definition run_seqid (config : Config) (sequence : Sequence)
    (ncbi_tree : Tree) : M World (option (list string)) :=
  let method := idcheck config in
  if bool_decide (method = "boldigger2") then
    run_boldigger2 sequence
  else if bool_decide (method = "blast") then
    (taxa ← run_blast config sequence; mret (Some taxa))
  else if bool_decide (method = "localblast") then
    (taxa ← run_localblast sequence ncbi_tree; mret (Some taxa))
  else
    log ERROR ("Invalid ID check method '" +:+ method
                 +:+ "' specified in config file");;
    mret None.
End seqid.
End Taxonomy.

(** ** taxonomy.py: the output of the local search

    [run_localblast] once more, with the external program opened up: the
    search writes a table of tab-separated columns, the last of them the
    taxon identifiers of the hit, separated by semicolons; the function
    reads the table line by line and hands the identifiers to
    [collect_lineages]. *)

Module LocalBlast.
Import Taxonomy.

(** [c.isspace()], for a [str] [c] of one character: the characters that
    [str.strip] removes.  In Unicode these are
    - U+0009 to U+000D, U+001C to U+001F and U+0020, of one byte each;
    - U+0085 and U+00A0, the bytes 194 133 and 194 160;
    - U+1680, the bytes 225 154 128;
    - U+2000 to U+200A, U+2028, U+2029 and U+202F, the bytes 226 128 and
      then 128 to 138, 168, 169 or 175;
    - U+205F, the bytes 226 129 159;
    - U+3000, the bytes 227 128 128. *)
Definition isspace (c : string) : bool :=
  match c with
  | String a EmptyString =>
      let a := Ascii.N_of_ascii a in
      ((9 <=? a) && (a <=? 13) || (28 <=? a) && (a <=? 32))%N
  | String a (String b EmptyString) =>
      let a := Ascii.N_of_ascii a in
      let b := Ascii.N_of_ascii b in
      ((a =? 194) && ((b =? 133) || (b =? 160)))%N
  | String a (String b (String c EmptyString)) =>
      let a := Ascii.N_of_ascii a in
      let b := Ascii.N_of_ascii b in
      let c := Ascii.N_of_ascii c in
      ((a =? 225) && (b =? 154) && (c =? 128)
       || (a =? 226) && (b =? 128)
          && ((128 <=? c) && (c <=? 138) || (c =? 168) || (c =? 169)
              || (c =? 175))
       || (a =? 226) && (b =? 129) && (c =? 159)
       || (a =? 227) && (b =? 128) && (c =? 128))%N
  | _ => false
  end.

(** [s.lstrip()]: a character is one, two or three bytes. *)
Fixpoint lstrip (s : string) : string :=
  match s with
  | EmptyString => EmptyString
  | String a s1 =>
      if isspace (String a EmptyString) then lstrip s1
      else
        match s1 with
        | EmptyString => s
        | String b s2 =>
            if isspace (String a (String b EmptyString)) then lstrip s2
            else
              match s2 with
              | EmptyString => s
              | String c s3 =>
                  if isspace (String a (String b (String c EmptyString)))
                  then lstrip s3
                  else s
              end
        end
  end.

(** [s.rstrip()]: from the right, what is left of the rest is kept unless
    it is one character of whitespace together with the byte before it. *)
Fixpoint rstrip (s : string) : string :=
  match s with
  | EmptyString => EmptyString
  | String a s' =>
      let r := String a (rstrip s') in
      if isspace r then EmptyString else r
  end.

(** [s.strip()] *)
Definition strip (s : string) : string := lstrip (rstrip s).

(** [s.split(sep)] with a separator of one character: the pieces between
    the separators, the empty ones too; never an empty list. *)
Fixpoint split (sep : Ascii.ascii) (s : string) : list string :=
  match s with
  | EmptyString => [EmptyString]
  | String a s' =>
      if bool_decide (a = sep) then EmptyString :: split sep s'
      else match split sep s' with
           | piece :: pieces => String a piece :: pieces
           | [] => [String a EmptyString]
           end
  end.

Definition tab : Ascii.ascii := Ascii.ascii_of_N 9.
Definition semicolon : Ascii.ascii := Ascii.ascii_of_N 59.

(** The body of the loop over the lines: the identifiers one line adds. *)
Definition line_taxids (line : string) : list string :=
  let columns := split tab (strip line) in
  match last columns with
  | None => []
  | Some taxid_field =>
      let taxids := split semicolon taxid_field in
      omap (λ taxid, if bool_decide (strip taxid = EmptyString) then None
                     else Some (strip taxid))
           taxids
  end.

(** [distinct_taxids] after the loop over the lines of the file *)
Definition distinct_taxids (lines : list string) : gset string :=
  foldl (λ taxids line, taxids ∪ list_to_set (line_taxids line)) ∅ lines.

(** [isinstance(e, subprocess.CalledProcessError)] *)
Definition is_CalledProcessError (e : exn) : bool :=
  match e with
  | Error cls _ => bool_decide (cls = "CalledProcessError")
  | _ => false
  end.

Section run.
Context {Sequence Net Tree Node : Type} `{TaxonomyTree Tree Node}.

(** Writing the query to a temporary file, running [blastn] on it and
    reading the lines of the table it writes: it returns the lines, or
    raises, [CalledProcessError] when the program fails. *)
Variable blastn : Sequence → M Net (list string).

Definition run_localblast (config : Config) (sequence : Sequence)
    (tree : Tree) : M World (list string) :=
  try_except
    (lines ← on_net (blastn sequence);
     let distinct_taxids := distinct_taxids lines in
     match collect_lineages config distinct_taxids tree with
     | inr taxa => mret taxa
     | inl e => raise e
     end)
    (λ e, if is_CalledProcessError e
          then log ERROR ("Error running local BLASTN: " +:+ str_exn e);;
               raise e
          else raise e).

(** [run_seqid] with this [run_localblast] for the local search. *)
Definition run_seqid (qblast : Sequence → M Net (list string))
    (esummary : string → M Net string)
    (efetch : string → M Net (list (string * string)))
    (run_boldigger2 : Sequence → M World (option (list string)))
    (config : Config) (sequence : Sequence) (ncbi_tree : Tree)
  : M World (option (list string)) :=
  Taxonomy.run_seqid qblast esummary efetch run_boldigger2
    (run_localblast config) config sequence ncbi_tree.
End run.
End LocalBlast.

(** ** taxonomy.py: words for the table of the local search *)

Module Text.
Import LocalBlast.

(** The character [a] occurs in [s]. *)
Definition occurs (a : Ascii.ascii) (s : string) : Prop :=
  a ∈ String.list_ascii_of_string s.

(** [sep.join(pieces)] *)
Fixpoint join (sep : Ascii.ascii) (pieces : list string) : string :=
  match pieces with
  | [] => EmptyString
  | piece :: pieces =>
      match pieces with
      | [] => piece
      | _ :: _ => piece +:+ String sep (join sep pieces)
      end
  end.

(** An identifier as the search writes it: not empty, without whitespace
    at its ends, without a semicolon and without a tab. *)
Definition plain (taxid : string) : Prop :=
  taxid ≠ EmptyString ∧ strip taxid = taxid ∧
  ¬ occurs semicolon taxid ∧ ¬ occurs tab taxid.

(** A line of the table: the columns, the identifiers in the last one,
    and the end of the line. *)
Definition table_line (columns taxids : list string) : string :=
  join tab (columns ++ [join semicolon taxids])
    +:+ String (Ascii.ascii_of_N 10) EmptyString.
End Text.

(** ** taxonomy.py: words for the resolver *)

Module Selection.
Import Taxonomy.
Section selection.
Context {Tree Node : Type} `{TaxonomyTree Tree Node}.

(** A tip whose 'taxon' guid is one of [taxids]. *)
Definition selected (taxids : gset string) (tip : Node) : bool :=
  match guids tip !! "taxon" with
  | Some taxid => bool_decide (taxid ∈ taxids)
  | None => false
  end.

(** A node of the path from the root to [tip] whose rank is the
    configured one. *)
Definition ancestor_at (config : Config) (tree : Tree) (tip node : Node) : Prop :=
  node ∈ root_get_path tree tip ∧
  taxonomic_rank node = lower (level config).
End selection.
End Selection.

(** ** result.py: the attributes of a result

    Words for what a call may touch and for what a result may hold. *)

Module Attributes.
Import Result.
Section attributes.
Context {Taxon : Type} `{EqDecision Taxon}.

Inductive attribute :=
| Seq_length | Obs_taxon | Exp_taxon | Species | Stop_codons | Ambiguities.

Global Instance attribute_eq_dec : EqDecision attribute.
Proof. solve_decision. Defined.

(** The attribute a call is for. *)
Definition target (c : call Taxon) : attribute :=
  match c with
  | Set_seq_length _ => Seq_length
  | Set_obs_taxon _ => Obs_taxon
  | Add_obs_taxon _ => Obs_taxon
  | Set_exp_taxon _ => Exp_taxon
  | Set_species _ => Species
  | Set_stop_codons _ => Stop_codons
  | Set_ambiguities _ => Ambiguities
  | Add_stop_codon _ => Stop_codons
  end.

(** [r] and [r'] hold the same numbers and taxa and refer to the same
    list objects, but for attribute [a]. *)
Definition same_except (a : attribute) (r r' : DNAAnalysisResult Taxon) : Prop :=
  process_id r = process_id r' ∧
  (a ≠ Seq_length → seq_length r = seq_length r') ∧
  (a ≠ Obs_taxon → _obs_taxon r = _obs_taxon r') ∧
  (a ≠ Exp_taxon → exp_taxon r = exp_taxon r') ∧
  (a ≠ Species → species r = species r') ∧
  (a ≠ Stop_codons → _stop_codons r = _stop_codons r') ∧
  (a ≠ Ambiguities → ambiguities r = ambiguities r').

(** The list object a call appends to, for the two calls that append. *)
Definition appends_to (w : World Taxon) (c : call Taxon) : option loc :=
  match c with
  | Add_obs_taxon _ => Some (_obs_taxon (self w))
  | Add_stop_codon _ => Some (_stop_codons (self w))
  | _ => None
  end.

(** The observed taxa and the stop codons are two list objects. *)
Definition separate (w : World Taxon) : Prop :=
  _obs_taxon (self w) ≠ _stop_codons (self w).

(** What the getters show of a result. *)
Definition view (w : World Taxon) :=
  (seq_length (self w), obs_taxon w, exp_taxon (self w), species (self w),
   stop_codons w, ambiguities (self w)).

(** What the setters let into a result: a positive length, a count that
    is not negative, and in the two lists taxa and positions that are not
    negative. *)
Definition taxon_or_position (v : value Taxon) : Prop :=
  is_taxon v ∨ non_negative_integer v.

Definition well_formed (w : World Taxon) : Prop :=
  (∀ n, seq_length (self w) = Some n → 0 < n) ∧
  (∀ n, ambiguities (self w) = Some n → 0 ≤ n) ∧
  Forall taxon_or_position (obs_taxon w) ∧
  Forall taxon_or_position (stop_codons w).

(** Taxa among the observed taxa only, positions among the stop codons
    only. *)
Definition sorted_out (w : World Taxon) : Prop :=
  Forall is_taxon (obs_taxon w) ∧
  Forall non_negative_integer (stop_codons w).

(** The calls [cs], made from [w] on, never leave the two attributes with
    one list object. *)
Fixpoint never_shared (w : World Taxon) (cs : list (call Taxon)) : Prop :=
  match cs with
  | [] => True
  | c :: cs => separate (perform c w).2 ∧ never_shared (perform c w).2 cs
  end.

(** The record a call leaves in the log: the value that an assignment to
    [obs_taxon] turns down. *)
Definition rejected_taxa (w : World Taxon) (c : call Taxon)
  : option (LogRecord (value Taxon)) :=
  match c with
  | Set_obs_taxon v =>
      match as_list_of is_Taxon w v with
      | None => Some (mkLogRecord ERROR v)
      | Some _ => None
      end
  | _ => None
  end.

(** The records the calls [cs], made from [w] on, leave in the log. *)
Fixpoint rejections (w : World Taxon) (cs : list (call Taxon))
  : list (LogRecord (value Taxon)) :=
  match cs with
  | [] => []
  | c :: cs => option_list (rejected_taxa w c) ++ rejections (perform c w).2 cs
  end.

(** The calls that add the taxa [ts], and the positions [ps], one by one. *)
Definition add_taxa (ts : list Taxon) : list (call Taxon) :=
  (λ t, Add_obs_taxon (PyTaxon t)) <$> ts.
Definition add_positions (ps : list Z) : list (call Taxon) :=
  (λ p, Add_stop_codon (PyInt p)) <$> ps.

(** A call that assigns to [stop_codons] as a whole. *)
Definition assigns_stop_codons (c : call Taxon) : bool :=
  match c with
  | Set_stop_codons _ => true
  | _ => false
  end.

(** The two operations that add to the observed taxa. *)
Definition adds_observed (c : call Taxon) : bool :=
  match c with
  | Add_obs_taxon _ => true
  | Set_obs_taxon _ => true
  | _ => false
  end.

(** The list objects that the calls [cs] assign to [obs_taxon]. *)
Definition assigned_lists (cs : list (call Taxon)) : list loc :=
  omap (λ c, match c with Set_obs_taxon (PyList l) => Some l | _ => None end) cs.
End attributes.
End Attributes.

(** ** A taxonomy tree

    Modelled from the spec: the tree classes of [nbt] and [Bio.Phylo] are
    not part of the sources.  The tree owns its nodes; [getTerminals]
    returns the tips and [pathFromRoot] the chain of ancestors from the root
    to the given node, both included, root first.  A node is the object it
    is: [oid] tells two nodes with the same content apart. *)

Module Phylo.

Record Taxon := mkTaxon {
  oid : nat;
  name : string;
  taxonomic_rank : string;
  guids : gmap string string }.

Inductive Clade := mkClade (taxon : Taxon) (clades : list Clade).

Definition taxon (c : Clade) : Taxon :=
  match c with mkClade t _ => t end.

(** The tips, left to right. *)
Fixpoint get_terminals (c : Clade) : list Taxon :=
  match c with
  | mkClade t [] => [t]
  | mkClade _ cs =>
      (fix terminals_of (cs : list Clade) : list Taxon :=
         match cs with
         | [] => []
         | c :: cs => get_terminals c ++ terminals_of cs
         end) cs
  end.

(** The path from [c] down to the node that is [target], if [c] holds it. *)
Fixpoint path_to (target : nat) (c : Clade) : option (list Taxon) :=
  match c with
  | mkClade t cs =>
      if bool_decide (oid t = target) then Some [t]
      else
        match
          (fix first_path (cs : list Clade) : option (list Taxon) :=
             match cs with
             | [] => None
             | c :: cs =>
                 match path_to target c with
                 | Some p => Some p
                 | None => first_path cs
                 end
             end) cs
        with
        | Some p => Some (t :: p)
        | None => None
        end
  end.

Definition get_path (root : Clade) (target : Taxon) : list Taxon :=
  default [] (path_to (oid target) root).

Global Instance Clade_tree : Taxonomy.TaxonomyTree Clade Taxon := {|
  Taxonomy.get_terminals := get_terminals;
  Taxonomy.root_get_path := get_path;
  Taxonomy.name := name;
  Taxonomy.taxonomic_rank := taxonomic_rank;
  Taxonomy.guids := guids |}.

(** The tree of the scenario: tips T1 (taxid 10) and T2 (taxid 11) in
    genus G1, tip T3 (taxid 20) in genus G2. *)
Definition node (i : nat) (n rank taxid : string) : Taxon :=
  {| oid := i; name := n; taxonomic_rank := rank;
     guids := {[ "taxon" := taxid ]} |}.

Definition scenario : Clade :=
  mkClade (node 0 "root" "no rank" "1")
    [ mkClade (node 1 "G1" "genus" "100")
        [ mkClade (node 2 "T1" "species" "10") [];
          mkClade (node 3 "T2" "species" "11") [] ];
      mkClade (node 4 "G2" "genus" "200")
        [ mkClade (node 5 "T3" "species" "20") [] ] ].

Definition genus_config : Config :=
  {| min_seq_length := 300; level := "genus"; idcheck := "localblast" |}.
End Phylo.

(** ** Sample results

    The result of the scenario of the design document: length 500 against
    a threshold of 300, the genus G1 observed and expected, no stop codon. *)

Module Sample.
Import Result.

(** Modelled from the spec: a Taxon is an identity value, a name at a
    rank; two taxa are equal when name and rank are. *)
Record Taxon := mkTaxon {
  name : string;
  rank : string }.

Global Instance Taxon_eq_dec : EqDecision Taxon.
Proof. solve_decision. Defined.

Definition G1 : Taxon := {| name := "G1"; rank := "genus" |}.
Definition G2 : Taxon := {| name := "G2"; rank := "genus" |}.

Definition config : Config := Phylo.genus_config.

(** The lists the caller has made: list 0 holds G1 twice, list 1 is
    empty, list 2 holds the positions 45, 45 and 12. *)
Definition heap : gmap loc (list (value Taxon)) :=
  {[ 0%nat := [PyTaxon G1; PyTaxon G1];
     1%nat := [];
     2%nat := [PyInt 45; PyInt 45; PyInt 12] ]}.

Definition new : World Taxon := __init__ "BGENL001-24" heap [].

Definition passing : World Taxon :=
  perform_all [ Set_seq_length (PyInt 500);
                Add_obs_taxon (PyTaxon G1);
                Set_exp_taxon (PyTaxon G1) ] new.

Definition failing : World Taxon :=
  (add_stop_codon (PyInt 45) passing).2.

(** A caller that assigns the list holding G1 twice. *)
Definition assigned_twice : World Taxon :=
  perform_all [ Set_obs_taxon (PyList 1%nat);
                Set_obs_taxon (PyList 0%nat) ] new.

(** A caller that assigns one empty list to both attributes and then adds
    a taxon and a position. *)
Definition shared : World Taxon :=
  perform_all [ Set_obs_taxon (PyList 1%nat);
                Set_stop_codons (PyList 1%nat);
                Add_obs_taxon (PyTaxon G1);
                Add_stop_codon (PyInt 7) ] new.
End Sample.

(** ** Sample services

    A world in which the remote search answers with two hits: the taxonomy
    of the first has a family and no genus, the summary of the second fails.
    The local search writes a table of two lines; boldigger2 fails.  The
    state counts the calls made. *)

Module Remote.
Import Taxonomy.

Definition qblast (sequence : string) : M nat (list string) :=
  λ calls, (inr ["MN123456"; "MN654321"], S calls).

Definition esummary (accession : string) : M nat string :=
  λ calls,
    (if bool_decide (accession = "MN123456") then inr "7460"
     else inl (Error "HTTPError" "HTTP Error 400: Bad Request"),
     S calls).

Definition efetch (taxon_id : string) : M nat (list (string * string)) :=
  λ calls, (inr [("order", "Hymenoptera"); ("family", "Apidae")], S calls).

Definition table : list string :=
  [ Text.table_line ["query1"; "gb|MN123456|"; "99.1"] ["10"; "11"];
    Text.table_line ["query1"; "gb|MN654321|"; "97.4"] ["20"] ].

Definition blastn (sequence : string) : M nat (list string) :=
  λ calls, (inr table, S calls).

Definition run_boldigger2 (sequence : string)
  : M (@World nat) (option (list string)) :=
  log ERROR "Error running boldigger2: exit status 1";;
  raise (Error "CalledProcessError" "exit status 1").

Definition start : World := {| net := 0%nat; logging := [] |}.

Definition run_blast :=
  Taxonomy.run_blast qblast esummary efetch.
Definition run_seqid :=
  LocalBlast.run_seqid (Tree:=Phylo.Clade) blastn qblast esummary efetch
    run_boldigger2.

(** A configuration that names a method the program does not have. *)
Definition megablast_config : Config :=
  {| min_seq_length := 300; level := "genus"; idcheck := "megablast" |}.

Definition family_config : Config :=
  {| min_seq_length := 300; level := "family"; idcheck := "blast" |}.

Definition blast_config : Config :=
  {| min_seq_length := 300; level := "genus"; idcheck := "blast" |}.
End Remote.

(** * Properties of result.py *)

Module ResultFacts.
Import Result Attributes.

(** Unfolds one method call down to its case analysis. *)
Ltac run_method :=
  cbv [perform set_seq_length set_obs_taxon add_obs_taxon set_exp_taxon
       set_species set_stop_codons set_ambiguities add_stop_codon
       get_world put_self logging_error raise
       mbind mret M_bind M_ret Py.bind Py.ret];
  cbn [fst snd self lists logging].

Section facts.
Context {Taxon : Type} `{EqDecision Taxon}.
Implicit Types (r : DNAAnalysisResult Taxon) (w : World Taxon)
               (v : value Taxon) (config : Config) (l : loc).

(** *** List objects *)

Lemma append_items l v w l' :
  items (append l v w).2 l' =
  if decide (l = l') then items w l ++ [v] else items w l'.
Proof.
  unfold items, append. cbn. destruct (decide (l = l')) as [<- | Hne].
  - apply lookup_total_insert_eq.
  - by apply lookup_total_insert_ne.
Qed.

Lemma is_Taxon_spec v : is_Taxon v = true ↔ is_taxon v.
Proof.
  unfold is_Taxon, is_taxon. destruct v; cbn; split; try done;
    try (by intros [? [=]]). by eexists.
Qed.

Lemma is_position_spec v : is_position v = true ↔ non_negative_integer v.
Proof.
  unfold is_position, non_negative_integer.
  destruct (as_int v) as [n|]; [|split; [done | by intros (? & [=] & _)]].
  rewrite bool_decide_eq_true. split; [by exists n |].
  by intros (? & [= <-] & ?).
Qed.

Lemma as_list_of_Some (test : value Taxon → bool) (P : value Taxon → Prop)
    w v l :
  (∀ x, test x = true ↔ P x) →
  as_list_of test w v = Some l ↔ v = PyList l ∧ Forall P (items w l).
Proof.
  intros Htest. unfold as_list_of.
  destruct v as [| | | | |l'|]; try (split; [done | by intros [[=] _]]).
  destruct (forallb test (items w l')) eqn:Hall.
  - apply Is_true_true, forallb_True in Hall. split.
    + intros [= <-]. split; [done |].
      eapply Forall_impl; [exact Hall |]. intros x Hx. by apply Htest, Is_true_true.
    + by intros [[= <-] _].
  - split; [done |]. intros [[= <-] HP]. exfalso.
    apply not_true_iff_false in Hall. apply Hall, Is_true_true, forallb_True.
    eapply Forall_impl; [exact HP |]. intros x Hx. by apply Is_true_true, Htest.
Qed.

Lemma as_list_of_None (test : value Taxon → bool) (P : value Taxon → Prop)
    w v :
  (∀ x, test x = true ↔ P x) →
  as_list_of test w v = None ↔ ¬ list_of P w v.
Proof.
  intros Htest. destruct (as_list_of test w v) as [l|] eqn:Hv.
  - apply (as_list_of_Some test P) in Hv; [|done].
    split; [done |]. intros []. by exists l.
  - split; [|done]. intros _ (l & -> & HP).
    assert (as_list_of test w (PyList l) = Some l) as Hsome
      by (by apply (as_list_of_Some test P)).
    congruence.
Qed.

(** *** The checks *)

Lemma check_length_true config r :
  check_length config r = true ↔
  ∃ n, seq_length r = Some n ∧ min_seq_length config ≤ n.
Proof.
  unfold check_length. destruct (seq_length r) as [n|]; cbn.
  - rewrite bool_decide_eq_true. split; [eauto | intros (? & [= <-] & ?); done].
  - split; [done | intros (? & [=] & _)].
Qed.

Lemma check_taxonomy_true w :
  check_taxonomy w = true ↔
  ∃ e, exp_taxon (self w) = Some e ∧ obs_taxon w ≠ [] ∧
       PyTaxon e ∈ obs_taxon w.
Proof.
  unfold check_taxonomy, optional_in.
  destruct (exp_taxon (self w)) as [e|], (obs_taxon w) as [|t l] eqn:Hobs; cbn;
    try (split; [done | intros (? & ? & ? & ?); congruence]).
  rewrite bool_decide_eq_true. split.
  - intros He. exists e. done.
  - intros (? & [= <-] & _ & ?). done.
Qed.

Lemma check_pseudogene_true w :
  check_pseudogene w = true ↔ stop_codons w = [].
Proof.
  unfold check_pseudogene. rewrite bool_decide_eq_true.
  apply length_zero_iff_nil.
Qed.

(** C6: [check_length] is false on a result without a length; with a
    length, it is true exactly when the length is at least the configured
    minimum, so false one below the minimum and true at the minimum. *)
Theorem check_length_threshold config r :
  (seq_length r = None → check_length config r = false) ∧
  (∀ n, seq_length r = Some n →
        (check_length config r = true ↔ min_seq_length config ≤ n)) ∧
  (seq_length r = Some (min_seq_length config - 1) →
   check_length config r = false) ∧
  (seq_length r = Some (min_seq_length config) →
   check_length config r = true).
Proof.
  repeat split.
  - unfold check_length. by intros ->.
  - intros Hc. apply check_length_true in Hc as (m & Hm & ?). congruence.
  - intros Hn. apply check_length_true. eauto.
  - intros Hlen. apply not_true_is_false. rewrite check_length_true.
    intros (m & Hm & ?). rewrite Hlen in Hm. injection Hm as <-. lia.
  - intros Hlen. apply check_length_true. eexists. split; [done | lia].
Qed.

(** C7: [check_taxonomy] is true exactly when an expected taxon is set,
    the observed taxa are not empty and hold the expected taxon; it is
    false when the expected taxon is unset and when no taxon is observed,
    whatever the other holds. *)
Theorem check_taxonomy_membership w :
  (check_taxonomy w = true ↔
   ∃ e, exp_taxon (self w) = Some e ∧ obs_taxon w ≠ [] ∧
        PyTaxon e ∈ obs_taxon w) ∧
  (exp_taxon (self w) = None → check_taxonomy w = false) ∧
  (obs_taxon w = [] → check_taxonomy w = false).
Proof.
  split; [apply check_taxonomy_true |].
  split; intros Hnone; apply not_true_is_false;
    rewrite check_taxonomy_true; intros (e & ? & ? & ?); congruence.
Qed.

(** C5: [passes_all_checks] is true exactly when [check_length],
    [check_taxonomy] and [check_pseudogene] are all true of the same
    result; one of them false makes it false. *)
Theorem passes_all_checks_conjunction config w :
  (passes_all_checks config w = true ↔
   check_length config (self w) = true ∧ check_taxonomy w = true ∧
   check_pseudogene w = true) ∧
  (check_length config (self w) = false ∨ check_taxonomy w = false ∨
   check_pseudogene w = false →
   passes_all_checks config w = false).
Proof.
  unfold passes_all_checks. split.
  - rewrite !andb_true_iff. tauto.
  - intros Hfalse. apply not_true_is_false. rewrite !andb_true_iff.
    intros [[Hl Ht] Hp]. destruct Hfalse as [? | [? | ?]]; congruence.
Qed.

(** *** The setters *)

Lemma as_taxon_Some v t : as_taxon v = Some t → is_taxon v.
Proof. destruct v; intros [=]. by eexists. Qed.

(** C4: a call whose value breaks the contract of its setter (a length
    that is not a positive integer, a count or a position that is not a
    non-negative integer, a value that is not a Taxon where one is
    expected) raises [ValueError] and leaves the object, and every list, as
    it was. *)
Theorem invalid_assignment_rejected (c : call Taxon) w :
  ¬ valid w c →
  ∃ msg, (perform c w).1 = inl (ValueError msg) ∧
         self (perform c w).2 = self w ∧
         lists (perform c w).2 = lists w.
Proof.
  destruct c as [v|v|v|v|v|v|v|v]; cbn [valid]; intros Hinvalid; run_method.
  - destruct (as_int v) as [n|] eqn:Hv; [|by eexists].
    case_bool_decide; [by eexists |].
    destruct Hinvalid. exists n. split; [done | lia].
  - apply (as_list_of_None is_Taxon is_taxon) in Hinvalid as ->;
      [by eexists | apply is_Taxon_spec].
  - destruct (as_taxon v) as [t|] eqn:Hv; [|by eexists].
    destruct Hinvalid. by eapply as_taxon_Some.
  - destruct (as_taxon v) as [t|] eqn:Hv; [|by eexists].
    destruct Hinvalid. by eapply as_taxon_Some.
  - destruct (as_taxon v) as [t|] eqn:Hv; [|by eexists].
    destruct Hinvalid. by eapply as_taxon_Some.
  - apply (as_list_of_None is_position non_negative_integer) in Hinvalid as ->;
      [by eexists | apply is_position_spec].
  - destruct (as_int v) as [n|] eqn:Hv; [|by eexists].
    case_bool_decide; [by eexists |].
    destruct Hinvalid. exists n. split; [done | lia].
  - destruct (as_int v) as [n|] eqn:Hv; [|by eexists].
    case_bool_decide; [by eexists |].
    destruct Hinvalid. exists n. split; [done | lia].
Qed.

Lemma add_stop_codon_valid v n w :
  as_int v = Some n → 0 ≤ n →
  add_stop_codon v w = append (_stop_codons (self w)) v w.
Proof.
  intros Hv Hn. run_method. rewrite Hv.
  by rewrite bool_decide_eq_false_2 by lia.
Qed.

Lemma stop_codons_append v w :
  stop_codons (append (_stop_codons (self w)) v w).2 = stop_codons w ++ [v].
Proof. unfold stop_codons. rewrite append_items. cbn. by rewrite decide_True. Qed.

(** C8: [check_pseudogene] is true exactly when no stop codon is
    recorded; [add_stop_codon] with a non-negative integer returns and
    leaves a result on which [check_pseudogene] is false. *)
Theorem check_pseudogene_stop_codons :
  (∀ w, check_pseudogene w = true ↔ stop_codons w = []) ∧
  (∀ w v n, as_int v = Some n → 0 ≤ n →
     (add_stop_codon v w).1 = inr tt ∧
     stop_codons (add_stop_codon v w).2 = stop_codons w ++ [v] ∧
     check_pseudogene (add_stop_codon v w).2 = false).
Proof.
  split; [apply check_pseudogene_true |].
  intros w v n Hv Hn. rewrite (add_stop_codon_valid v n) by done.
  split_and!; [done | apply stop_codons_append |].
  apply not_true_is_false. rewrite check_pseudogene_true, stop_codons_append.
  by intros ?%app_nil_r_inv.
Qed.

(** *** What the verdicts read *)

Lemma verdicts_read config w w' :
  seq_length (self w) = seq_length (self w') → obs_taxon w = obs_taxon w' →
  exp_taxon (self w) = exp_taxon (self w') →
  stop_codons w = stop_codons w' →
  verdicts config w = verdicts config w'.
Proof.
  unfold verdicts, passes_all_checks, check_length, check_taxonomy,
    check_pseudogene.
  by intros -> -> -> ->.
Qed.

(** C10: the four verdicts read the length, the observed taxa, the
    expected taxon and the stop codons only; a call of the setter of
    [species] or of [ambiguities], with any value, leaves each verdict as
    it was. *)
Theorem verdicts_frame config :
  (∀ w w', seq_length (self w) = seq_length (self w') →
           obs_taxon w = obs_taxon w' →
           exp_taxon (self w) = exp_taxon (self w') →
           stop_codons w = stop_codons w' →
           verdicts config w = verdicts config w') ∧
  (∀ v w, verdicts config (set_species v w).2 = verdicts config w) ∧
  (∀ v w, verdicts config (set_ambiguities v w).2 = verdicts config w).
Proof.
  split; [apply verdicts_read |].
  split; intros v w; run_method.
  - by destruct (as_taxon v).
  - destruct (as_int v); [case_bool_decide |]; done.
Qed.

(** *** The observed taxa *)

Lemma add_obs_taxon_present v w :
  is_taxon v → v ∈ obs_taxon w → add_obs_taxon v w = (inr tt, w).
Proof.
  intros [t ->] Hin. run_method. cbn. by rewrite bool_decide_eq_true_2.
Qed.

Lemma add_obs_taxon_absent v w :
  is_taxon v → v ∉ obs_taxon w →
  add_obs_taxon v w = append (_obs_taxon (self w)) v w.
Proof.
  intros [t ->] Hin. run_method. cbn. by rewrite bool_decide_eq_false_2.
Qed.

Lemma obs_taxon_append v w :
  obs_taxon (append (_obs_taxon (self w)) v w).2 = obs_taxon w ++ [v].
Proof. unfold obs_taxon. rewrite append_items. cbn. by rewrite decide_True. Qed.

Lemma set_obs_taxon_valid l w :
  Forall is_taxon (items w l) →
  set_obs_taxon (PyList l) w =
    (inr tt,
     {| self := {| process_id := process_id (self w);
                   _seq_length := _seq_length (self w);
                   _obs_taxon := l;
                   _exp_taxon := _exp_taxon (self w);
                   _species := _species (self w);
                   _stop_codons := _stop_codons (self w);
                   _ambiguities := _ambiguities (self w) |};
        lists := lists w;
        logging := logging w |}).
Proof.
  intros Hl. run_method.
  assert (as_list_of is_Taxon w (PyList l) = Some l) as ->; [|done].
  apply (as_list_of_Some is_Taxon is_taxon); [apply is_Taxon_spec | done].
Qed.

(** One of the two operations, on a result without duplicates, among
    lists [ls] without duplicates. *)
Lemma perform_adds_observed (c : call Taxon) w (ls : list loc) :
  adds_observed c = true →
  NoDup (obs_taxon w) →
  Forall (λ l, NoDup (items w l)) ls →
  (∀ l, c = Set_obs_taxon (PyList l) → l ∈ ls) →
  NoDup (obs_taxon (perform c w).2) ∧
  Forall (λ l, NoDup (items (perform c w).2 l)) ls.
Proof.
  intros Hc Hobs Hls Hin. destruct c as [v|v|v|v|v|v|v|v]; try done; cbn [perform].
  - destruct (as_list_of is_Taxon w v) as [l|] eqn:Hv.
    + apply (as_list_of_Some is_Taxon is_taxon) in Hv as [-> Hl];
        [|apply is_Taxon_spec].
      rewrite set_obs_taxon_valid by done. cbn. split; [|done].
      rewrite Forall_forall in Hls. apply Hls, Hin. done.
    + run_method. rewrite Hv. done.
  - destruct (as_taxon v) as [t|] eqn:Hv; [|by run_method; rewrite Hv].
    apply as_taxon_Some in Hv.
    destruct (decide (v ∈ obs_taxon w)) as [Hpresent | Habsent].
    { by rewrite add_obs_taxon_present. }
    rewrite add_obs_taxon_absent by done.
    assert (NoDup (obs_taxon w ++ [v])) as Hnew.
    { apply NoDup_app. split_and!; [done | | apply NoDup_singleton].
      intros x Hx ->%list_elem_of_singleton. done. }
    split; [by rewrite obs_taxon_append |].
    eapply Forall_impl; [exact Hls |]. intros l Hl. cbn beta.
    rewrite append_items. by case_decide; subst.
Qed.

(** C3, as the code has it: [add_obs_taxon] never stores a taxon twice,
    the setter of [obs_taxon] stores the list it is given.  A taxon that is
    among the observed taxa is ignored, without an error and without a
    change; a taxon that is not is appended; a list of taxa that is
    assigned becomes the list of the result as it is, duplicates and all.
    So after any sequence of these two operations in which every list
    assigned is without duplicates, a result that held no taxon twice holds
    no taxon twice. *)
Theorem obs_taxon_no_duplicates :
  (∀ w t, PyTaxon t ∈ obs_taxon w →
          add_obs_taxon (PyTaxon t) w = (inr tt, w)) ∧
  (∀ w t, PyTaxon t ∉ obs_taxon w →
          (add_obs_taxon (PyTaxon t) w).1 = inr tt ∧
          obs_taxon (add_obs_taxon (PyTaxon t) w).2
            = obs_taxon w ++ [PyTaxon t]) ∧
  (∀ w l, Forall is_taxon (items w l) →
          (set_obs_taxon (PyList l) w).1 = inr tt ∧
          _obs_taxon (self (set_obs_taxon (PyList l) w).2) = l ∧
          lists (set_obs_taxon (PyList l) w).2 = lists w) ∧
  (∀ (cs : list (call Taxon)) w,
     Forall (λ c, adds_observed c = true) cs →
     NoDup (obs_taxon w) →
     Forall (λ l, NoDup (items w l)) (assigned_lists cs) →
     NoDup (obs_taxon (perform_all cs w))).
Proof.
  split_and!.
  - intros w t Hin. apply add_obs_taxon_present; [by eexists | done].
  - intros w t Hin. rewrite add_obs_taxon_absent; [|by eexists | done].
    split; [done | apply obs_taxon_append].
  - intros w l Hl. by rewrite set_obs_taxon_valid.
  - intros cs. induction cs as [|c cs IH]; intros w Hcs Hobs Hls; [done |].
    apply Forall_cons in Hcs as [Hc Hcs]. cbn [perform_all].
    destruct (perform_adds_observed c w (assigned_lists (c :: cs)))
      as [Hobs' Hls']; [done.. | |].
    { intros l ->. by left. }
    apply IH; [done..|].
    eapply Forall_forall. intros l Hl. rewrite Forall_forall in Hls'.
    apply Hls'. unfold assigned_lists. cbn [omap list_omap].
    destruct c as [?|[]|?|?|?|?|?|?]; try done. by right.
Qed.
End facts.

(** *** The scenario of the design document *)

Example passing_passes :
  passes_all_checks Sample.config Sample.passing = true.
Proof. by vm_compute. Qed.

Example stop_codon_fails :
  passes_all_checks Sample.config
    (add_stop_codon (PyInt 45) Sample.passing).2 = false.
Proof. by vm_compute. Qed.

(** One list assigned to both attributes is one list: the taxon and the
    position added afterwards are in both. *)
Example one_list_for_both :
  obs_taxon Sample.shared = [PyTaxon Sample.G1; PyInt 7] ∧
  stop_codons Sample.shared = [PyTaxon Sample.G1; PyInt 7].
Proof. by vm_compute. Qed.

Lemma check_length_threshold_witness :
  check_length Sample.config
    (self (set_seq_length (PyInt 299) Sample.new).2) = false ∧
  check_length Sample.config
    (self (set_seq_length (PyInt 300) Sample.new).2) = true.
Proof.
  split.
  - apply (check_length_threshold Sample.config
             (self (set_seq_length (PyInt 299) Sample.new).2)).
    reflexivity.
  - apply (check_length_threshold Sample.config
             (self (set_seq_length (PyInt 300) Sample.new).2)).
    reflexivity.
Defined.

Lemma check_pseudogene_stop_codons_witness :
  check_pseudogene Sample.passing = true ∧
  check_pseudogene (add_stop_codon (PyInt 45) Sample.passing).2 = false.
Proof.
  split.
  - apply (proj1 (@check_pseudogene_stop_codons Sample.Taxon)).
    by vm_compute.
  - apply (proj2 (@check_pseudogene_stop_codons Sample.Taxon)
             Sample.passing (PyInt 45) 45); [reflexivity | lia].
Defined.

Lemma invalid_assignment_rejected_witness :
  ¬ valid Sample.passing (Set_seq_length (PyInt 0)) ∧
  ∃ msg, (perform (Set_seq_length (PyInt 0)) Sample.passing).1
           = inl (ValueError msg) ∧
         self (perform (Set_seq_length (PyInt 0)) Sample.passing).2
           = self Sample.passing ∧
         lists (perform (Set_seq_length (PyInt 0)) Sample.passing).2
           = lists Sample.passing.
Proof.
  assert (Hinvalid : ¬ valid Sample.passing (Set_seq_length (PyInt 0))).
  { intros (n & Hn & Hpos). cbn in Hn. injection Hn as <-. lia. }
  split; [exact Hinvalid |].
  exact (invalid_assignment_rejected _ Sample.passing Hinvalid).
Defined.

(** C3 fails for the setter: after the assignment of an empty list and
    then of a list that holds G1 twice, the result holds G1 twice. *)
Lemma obs_taxon_setter_stores_duplicates :
  obs_taxon Sample.assigned_twice = [PyTaxon Sample.G1; PyTaxon Sample.G1] ∧
  ¬ NoDup (obs_taxon Sample.assigned_twice).
Proof.
  assert (obs_taxon Sample.assigned_twice
          = [PyTaxon Sample.G1; PyTaxon Sample.G1]) as Heq by (by vm_compute).
  split; [done |]. rewrite Heq.
  intros Hnodup. apply NoDup_cons in Hnodup as [Hnotin _].
  apply Hnotin. left.
Qed.

Lemma obs_taxon_no_duplicates_witness :
  NoDup (obs_taxon
           (perform_all
              [ Add_obs_taxon (PyTaxon Sample.G1);
                Add_obs_taxon (PyTaxon Sample.G1);
                Set_obs_taxon (PyList 1%nat);
                Add_obs_taxon (PyTaxon Sample.G2);
                Add_obs_taxon (PyTaxon Sample.G2) ]
              Sample.new)).
Proof.
  apply (proj2 (proj2 (proj2 (@obs_taxon_no_duplicates Sample.Taxon _)))).
  - repeat constructor.
  - apply (bool_decide_unpack _). by vm_compute.
  - apply (bool_decide_unpack _). by vm_compute.
Defined.
End ResultFacts.

(** * Properties of taxonomy.py *)

Module TaxonomyFacts.
Import Taxonomy.

(** *** The lineage resolver *)

Section resolver.
Context {Tree Node : Type} `{TaxonomyTree Tree Node}.

Definition single_chars (taxa : gset string) : Prop :=
  ∀ x, x ∈ taxa → String.length x = 1%nat.

Lemma chars_length s x : x ∈ chars s → String.length x = 1%nat.
Proof.
  induction s as [|a s IH]; cbn; [by intros ?%elem_of_nil |].
  intros [-> | ?]%elem_of_cons; [done | auto].
Qed.

Lemma set_update_str_single_chars taxa s :
  single_chars taxa → single_chars (set_update_str taxa s).
Proof.
  intros Htaxa x. unfold set_update_str.
  rewrite elem_of_union, elem_of_list_to_set.
  intros [? | ?]; [auto | by eapply chars_length].
Qed.

Lemma collect_path_single_chars config path taxa :
  single_chars taxa → single_chars (collect_path config taxa path).
Proof.
  unfold collect_path. revert taxa.
  induction path as [|node path IH]; intros taxa Htaxa; [done |].
  cbn [foldl]. apply IH. case_bool_decide; [|done].
  by apply set_update_str_single_chars.
Qed.

(** Whatever the tree and the identifiers, every entry of the result of
    [collect_lineages] is one character long: the names of the ancestors
    are taken apart into their characters. *)
Lemma collect_lineages_single_chars config taxids (tree : Tree) l :
  collect_lineages config taxids tree = inr l →
  ∀ x, x ∈ l → String.length x = 1%nat.
Proof.
  unfold collect_lineages.
  destruct (collect_tips taxids (get_terminals tree) []) as [e|tips]; [done |].
  intros [= <-] x Hx%elem_of_elements. revert x Hx.
  change (single_chars
            (foldl (λ taxa tip,
                      collect_path config taxa (root_get_path tree tip))
                   ∅ tips)).
  generalize (∅ : gset string) (λ x (Hx : x ∈ (∅ : gset string)),
    False_ind (String.length x = 1%nat) (not_elem_of_empty x Hx)).
  induction tips as [|tip tips IH]; intros taxa Htaxa; [done |].
  cbn [foldl]. apply IH. by apply collect_path_single_chars.
Qed.
End resolver.

(** C1, at the scenario of the design document: resolving the
    identifiers 10 and 11 at rank genus, the code returns the two
    characters of the name G1, not the name. *)
Theorem collect_lineages_scenario :
  ∃ l, collect_lineages Phylo.genus_config {[ "10"; "11" ]} Phylo.scenario
       = inr l ∧
       l ≡ₚ ["G"; "1"] ∧ "G1" ∉ l.
Proof.
  exists ["G"; "1"]. split_and!; [by vm_compute | done |].
  intros [? | [? | ?%elem_of_nil]%elem_of_cons]%elem_of_cons; done.
Qed.

(** The same with the identifiers 10 and 20: the characters of G1 and of
    G2, where the design document has the two names. *)
Example collect_lineages_two_genera :
  collect_lineages Phylo.genus_config {[ "10"; "20" ]} Phylo.scenario
  = inr ["G"; "1"; "2"].
Proof. by vm_compute. Qed.

(** *** Sequence identification *)

Section seqid.
Context {Sequence Net Tree : Type}.
Variable qblast : Sequence → M Net (list string).
Variable esummary : string → M Net string.
Variable efetch : string → M Net (list (string * string)).
Variable run_boldigger2 : Sequence → M (@World Net) (option (list string)).
Variable run_localblast : Sequence → Tree → M (@World Net) (list string).

Local Abbreviation fetch_lineages := (fetch_lineages esummary efetch).
Local Abbreviation run_blast := (run_blast qblast esummary efetch).
Local Abbreviation run_seqid :=
  (run_seqid qblast esummary efetch run_boldigger2 run_localblast).

(** The loop over the hits catches what a hit raises: it always
    returns. *)
Lemma fetch_lineages_returns top_hits lineages (w : World) :
  ∃ lineages' w', fetch_lineages top_hits lineages w = (inr lineages', w').
Proof.
  revert lineages w.
  induction top_hits as [|accession top_hits IH]; intros lineages w.
  - by eexists _, _.
  - cbn [Taxonomy.fetch_lineages].
    cbv [mbind M_bind Py.bind try_except].
    destruct (fetch_lineage esummary efetch accession lineages w)
      as [[e|lineages1] w1]; cbn; apply IH.
Qed.

Lemma taxa_at_nil target_level (lineages : list (gmap string string)) :
  (∀ lineage, lineage ∈ lineages → lineage !! target_level = None) →
  taxa_at target_level lineages = [].
Proof.
  intros Hnone. unfold taxa_at.
  replace (omap _ lineages) with (@nil string); [apply elements_empty |].
  induction lineages as [|lineage lineages IH]; [done |].
  cbn. rewrite (Hnone lineage) by left.
  apply IH. intros ? ?. apply Hnone. by right.
Qed.

(** C9: the loop that fetches the lineages of the hits never raises; once
    the search has answered and none of the lineages fetched has an
    entry at the target rank, [run_blast] logs a warning and returns the
    list that holds "Unknown" and nothing else. *)
Theorem run_blast_unknown :
  (∀ top_hits lineages (w : World),
     ∃ lineages' w', fetch_lineages top_hits lineages w = (inr lineages', w')) ∧
  (∀ config sequence (w : World) alignments n lineages w',
     qblast sequence (net w) = (inr alignments, n) →
     fetch_lineages (take 10 alignments) []
       {| net := n; logging := logging w |} = (inr lineages, w') →
     (∀ lineage, lineage ∈ lineages → lineage !! level config = None) →
     run_blast config sequence w =
       (inr ["Unknown"],
        {| net := net w';
           logging := logging w' ++
             [mkLogRecord WARNING
                ("No taxa found at " +:+ level config +:+ " level")] |})).
Proof.
  split; [apply fetch_lineages_returns |].
  intros config sequence w alignments n lineages w' Hsearch Hfetch Hnone.
  unfold Taxonomy.run_blast.
  cbv [mbind M_bind Py.bind on_net]. rewrite Hsearch, Hfetch.
  by rewrite taxa_at_nil.
Qed.

(** C2, as the code has it: with a method name that is none of
    'boldigger2', 'blast' and 'localblast', [run_seqid] logs an error
    that names the method and returns [None]; it raises nothing and
    calls no service. *)
Theorem run_seqid_unsupported config sequence (ncbi_tree : Tree) (w : World) :
  idcheck config ∉ ["boldigger2"; "blast"; "localblast"] →
  run_seqid config sequence ncbi_tree w =
    (inr None,
     {| net := net w;
        logging := logging w ++
          [mkLogRecord ERROR
             ("Invalid ID check method '" +:+ idcheck config
                +:+ "' specified in config file")] |}).
Proof.
  intros Hmethod. unfold Taxonomy.run_seqid.
  rewrite !bool_decide_eq_false_2; [done | | |];
    intros Heq; apply Hmethod; rewrite Heq;
    repeat first [by left | right].
Qed.
End seqid.

(** C2 fails on the method name 'megablast': [run_seqid] returns [None]
    and raises nothing; the caller is left with a line in the log. *)
Lemma run_seqid_megablast_returns_none :
  Remote.run_seqid Remote.megablast_config "ACGT" Phylo.scenario Remote.start
  = (inr None,
     {| net := 0%nat;
        logging := [mkLogRecord ERROR
          "Invalid ID check method 'megablast' specified in config file"] |}) ∧
  ¬ raises (Remote.run_seqid Remote.megablast_config "ACGT" Phylo.scenario)
      Remote.start.
Proof.
  split; [reflexivity |]. intros [e He]. discriminate He.
Qed.

Lemma run_seqid_unsupported_witness :
  Remote.run_seqid Remote.megablast_config "ACGT" Phylo.scenario Remote.start
  = (inr None,
     {| net := 0%nat;
        logging := [mkLogRecord ERROR
          "Invalid ID check method 'megablast' specified in config file"] |}).
Proof.
  apply (run_seqid_unsupported Remote.qblast Remote.esummary Remote.efetch
           Remote.run_boldigger2
           (LocalBlast.run_localblast Remote.blastn Remote.megablast_config)
           Remote.megablast_config "ACGT" Phylo.scenario Remote.start).
  cbn. intros Hin.
  repeat (apply elem_of_cons in Hin as [Heq | Hin]; [discriminate Heq |]).
  by apply elem_of_nil in Hin.
Defined.

Lemma run_blast_unknown_witness :
  Remote.run_blast Phylo.genus_config "ACGT" Remote.start
  = (inr ["Unknown"],
     {| net := 4%nat;
        logging :=
          [mkLogRecord ERROR
             "Error fetching taxonomy for MN654321: HTTP Error 400: Bad Request";
           mkLogRecord WARNING "No taxa found at genus level"] |}).
Proof.
  refine (proj2 (run_blast_unknown Remote.qblast Remote.esummary Remote.efetch)
            Phylo.genus_config "ACGT" Remote.start
            ["MN123456"; "MN654321"] 1%nat
            [ {[ "order" := "Hymenoptera"; "family" := "Apidae" ]} ]
            {| net := 4%nat;
               logging := [mkLogRecord ERROR
                 "Error fetching taxonomy for MN654321: HTTP Error 400: Bad Request"] |}
            _ _ _).
  - reflexivity.
  - vm_compute. reflexivity.
  - intros lineage Hin.
    apply elem_of_cons in Hin as [-> | Hin]; [| by apply elem_of_nil in Hin].
    vm_compute. reflexivity.
Defined.
End TaxonomyFacts.

(** * Further properties of result.py *)

Module ResultLaws.
Import Result Attributes.
Import ResultFacts.

Section laws.
Context {Taxon : Type} `{EqDecision Taxon}.
Implicit Types (r : DNAAnalysisResult Taxon) (w : World Taxon)
               (v : value Taxon) (c : call Taxon) (config : Config) (l : loc).

(** *** The ways a call can go *)

Lemma add_obs_taxon_cases v w :
  (∃ e, add_obs_taxon v w = (inl e, w) ∧ ¬ is_taxon v) ∨
  (add_obs_taxon v w = (inr tt, w) ∧ is_taxon v ∧ v ∈ obs_taxon w) ∨
  (add_obs_taxon v w = append (_obs_taxon (self w)) v w ∧
   is_taxon v ∧ v ∉ obs_taxon w).
Proof.
  destruct (as_taxon v) as [t|] eqn:Hv.
  - apply as_taxon_Some in Hv. right.
    destruct (decide (v ∈ obs_taxon w)); [left | right].
    + by rewrite add_obs_taxon_present.
    + by rewrite add_obs_taxon_absent.
  - left. run_method. rewrite Hv. eexists. split; [done |].
    intros [t ->]. done.
Qed.

Lemma add_stop_codon_cases v w :
  (∃ e, add_stop_codon v w = (inl e, w) ∧ ¬ non_negative_integer v) ∨
  (add_stop_codon v w = append (_stop_codons (self w)) v w ∧
   non_negative_integer v).
Proof.
  destruct (as_int v) as [n|] eqn:Hv.
  - destruct (decide (0 ≤ n)).
    + right. split; [by eapply add_stop_codon_valid | by exists n].
    + left. run_method. rewrite Hv, bool_decide_eq_true_2 by lia.
      eexists. split; [done |]. intros (m & ? & ?). simplify_eq. lia.
  - left. run_method. rewrite Hv. eexists. split; [done |].
    intros (m & ? & ?). simplify_eq.
Qed.

Lemma set_stop_codons_valid l w :
  Forall non_negative_integer (items w l) →
  set_stop_codons (PyList l) w =
    (inr tt,
     {| self := {| process_id := process_id (self w);
                   _seq_length := _seq_length (self w);
                   _obs_taxon := _obs_taxon (self w);
                   _exp_taxon := _exp_taxon (self w);
                   _species := _species (self w);
                   _stop_codons := l;
                   _ambiguities := _ambiguities (self w) |};
        lists := lists w;
        logging := logging w |}).
Proof.
  intros Hl. run_method.
  assert (as_list_of is_position w (PyList l) = Some l) as ->; [|done].
  apply (as_list_of_Some is_position non_negative_integer);
    [apply is_position_spec | done].
Qed.

(** *** Calls that return *)

Lemma perform_valid c w :
  valid w c → (perform c w).1 = inr tt ∧ logging (perform c w).2 = logging w.
Proof.
  destruct c as [v|v|v|v|v|v|v|v]; cbn [valid perform]; intros Hvalid.
  - run_method. destruct Hvalid as (n & -> & Hn).
    by rewrite bool_decide_eq_false_2 by lia.
  - destruct Hvalid as (l & -> & Hl). by rewrite set_obs_taxon_valid.
  - destruct (add_obs_taxon_cases v w)
      as [(e & _ & []) | [(-> & _) | (-> & _)]]; done.
  - run_method. by destruct Hvalid as [t ->].
  - run_method. by destruct Hvalid as [t ->].
  - destruct Hvalid as (l & -> & Hl). by rewrite set_stop_codons_valid.
  - run_method. destruct Hvalid as (n & -> & Hn).
    by rewrite bool_decide_eq_false_2 by lia.
  - destruct (add_stop_codon_cases v w) as [(e & _ & []) | (-> & _)]; done.
Qed.

Lemma perform_returns_valid c w a : (perform c w).1 = inr a → valid w c.
Proof.
  destruct c as [v|v|v|v|v|v|v|v]; cbn [valid perform].
  - run_method. destruct (as_int v) as [n|] eqn:Hv; [|done].
    case_bool_decide; [done |]. intros _. exists n. split; [done | lia].
  - run_method. destruct (as_list_of is_Taxon w v) as [l|] eqn:Hv; [|done].
    intros _. apply (as_list_of_Some is_Taxon is_taxon) in Hv as [-> ?];
      [by exists l | apply is_Taxon_spec].
  - destruct (add_obs_taxon_cases v w)
      as [(e & -> & _) | [(_ & ? & _) | (_ & ? & _)]]; done.
  - run_method. destruct (as_taxon v) as [t|] eqn:Hv; [|done].
    intros _. by eapply as_taxon_Some.
  - run_method. destruct (as_taxon v) as [t|] eqn:Hv; [|done].
    intros _. by eapply as_taxon_Some.
  - run_method. destruct (as_list_of is_position w v) as [l|] eqn:Hv; [|done].
    intros _.
    apply (as_list_of_Some is_position non_negative_integer) in Hv as [-> ?];
      [by exists l | apply is_position_spec].
  - run_method. destruct (as_int v) as [n|] eqn:Hv; [|done].
    case_bool_decide; [done |]. intros _. exists n. split; [done | lia].
  - destruct (add_stop_codon_cases v w) as [(e & -> & _) | (_ & ?)]; done.
Qed.

(** X1: a call raises exactly when its value breaks the contract of its
    setter; every other call returns, and writes nothing to the log. *)
Theorem perform_raises_iff_invalid c w :
  (raises (perform c) w ↔ ¬ valid w c) ∧
  ((perform c w).1 = inr tt ↔ valid w c) ∧
  (valid w c → logging (perform c w).2 = logging w).
Proof.
  split_and!.
  - split.
    + intros [e He] Hvalid. apply (perform_valid c w) in Hvalid as [Hret _].
      congruence.
    + intros Hinvalid. destruct (perform c w).1 as [e|a] eqn:Hrun.
      * exists e. done.
      * destruct Hinvalid. by eapply perform_returns_valid.
  - split; [apply perform_returns_valid | apply perform_valid].
  - apply perform_valid.
Qed.

(** *** What a call touches *)

Lemma same_except_refl a r : same_except a r r.
Proof. unfold same_except. split_and!; done. Qed.

Lemma same_except_trans a r1 r2 r3 :
  same_except a r1 r2 → same_except a r2 r3 → same_except a r1 r3.
Proof.
  unfold same_except.
  intros (? & H1 & H2 & H3 & H4 & H5 & H6) (? & G1 & G2 & G3 & G4 & G5 & G6).
  split_and!; [congruence | intros Hne ..].
  - rewrite H1, G1; done.
  - rewrite H2, G2; done.
  - rewrite H3, G3; done.
  - rewrite H4, G4; done.
  - rewrite H5, G5; done.
  - rewrite H6, G6; done.
Qed.

(** The attributes after a call: what they hold and the lists they refer
    to. *)
Lemma perform_same_except c w :
  same_except (target c) (self w) (self (perform c w).2).
Proof.
  destruct c as [v|v|v|v|v|v|v|v]; cbn [perform target].
  - run_method. unfold same_except.
    destruct (as_int v); [case_bool_decide |]; cbn; split_and!; done.
  - run_method. unfold same_except.
    destruct (as_list_of is_Taxon w v); cbn; split_and!; done.
  - destruct (add_obs_taxon_cases v w)
      as [(e & -> & _) | [(-> & _) | (-> & _)]]; apply same_except_refl.
  - run_method. unfold same_except.
    destruct (as_taxon v); cbn; split_and!; done.
  - run_method. unfold same_except.
    destruct (as_taxon v); cbn; split_and!; done.
  - run_method. unfold same_except.
    destruct (as_list_of is_position w v); cbn; split_and!; done.
  - run_method. unfold same_except.
    destruct (as_int v); [case_bool_decide |]; cbn; split_and!; done.
  - destruct (add_stop_codon_cases v w) as [(e & -> & _) | (-> & _)];
      apply same_except_refl.
Qed.

(** The lists after a call: all as they were, but for the one list the
    call appends to. *)
Lemma perform_items c w l :
  Some l ≠ appends_to w c → items (perform c w).2 l = items w l.
Proof.
  intros Hl. destruct c as [v|v|v|v|v|v|v|v]; cbn [perform appends_to] in *.
  - run_method. destruct (as_int v); [case_bool_decide |]; done.
  - run_method. by destruct (as_list_of is_Taxon w v).
  - destruct (add_obs_taxon_cases v w)
      as [(e & -> & _) | [(-> & _) | (-> & _)]]; try done.
    rewrite append_items. case_decide; congruence.
  - run_method. by destruct (as_taxon v).
  - run_method. by destruct (as_taxon v).
  - run_method. by destruct (as_list_of is_position w v).
  - run_method. destruct (as_int v); [case_bool_decide |]; done.
  - destruct (add_stop_codon_cases v w) as [(e & -> & _) | (-> & _)]; try done.
    rewrite append_items. case_decide; congruence.
Qed.

(** X2: a call, whether it returns or raises, leaves every attribute but
    the one it is for as it was, in what it holds and in the list it refers
    to, and leaves every list as it was but for the one list an add method
    appends to.  When the observed taxa and the stop codons are two lists,
    the getters of all other attributes show what they showed. *)
Theorem perform_frame c w :
  same_except (target c) (self w) (self (perform c w).2) ∧
  (∀ l, Some l ≠ appends_to w c → items (perform c w).2 l = items w l) ∧
  (separate w →
   (target c ≠ Obs_taxon → obs_taxon (perform c w).2 = obs_taxon w) ∧
   (target c ≠ Stop_codons → stop_codons (perform c w).2 = stop_codons w)).
Proof.
  split_and!; [apply perform_same_except | apply perform_items |].
  intros Hseparate.
  destruct (perform_same_except c w) as (_ & _ & Hobs & _ & _ & Hstops & _).
  split; intros Htarget; unfold obs_taxon, stop_codons.
  - rewrite <- Hobs by done. apply perform_items.
    destruct c; cbn in *; congruence.
  - rewrite <- Hstops by done. apply perform_items.
    destruct c; cbn in *; congruence.
Qed.

(** *** What a result holds *)

Lemma items_forall (P : value Taxon → Prop) c w l :
  Forall P (items w l) →
  (∀ v, c = Add_obs_taxon v → is_taxon v → P v) →
  (∀ v, c = Add_stop_codon v → non_negative_integer v → P v) →
  Forall P (items (perform c w).2 l).
Proof.
  intros Hl Hobs Hstops.
  destruct (decide (Some l = appends_to w c)) as [Heq | Hne];
    [|by rewrite perform_items].
  destruct c as [v|v|v|v|v|v|v|v]; cbn [perform appends_to] in *; try done.
  - destruct (add_obs_taxon_cases v w)
      as [(e & -> & _) | [(-> & _) | (-> & ? & _)]]; try done.
    rewrite append_items. injection Heq as ->. rewrite decide_True by done.
    apply Forall_app. split; [done |]. apply Forall_singleton. eauto.
  - destruct (add_stop_codon_cases v w) as [(e & -> & _) | (-> & ?)]; try done.
    rewrite append_items. injection Heq as ->. rewrite decide_True by done.
    apply Forall_app. split; [done |]. apply Forall_singleton. eauto.
Qed.

Lemma assigned_taxa c w :
  _obs_taxon (self (perform c w).2) = _obs_taxon (self w) ∨
  Forall is_taxon (items w (_obs_taxon (self (perform c w).2))) ∧
  lists (perform c w).2 = lists w.
Proof.
  destruct c as [v|v|v|v|v|v|v|v]; cbn [perform].
  - left. run_method. destruct (as_int v); [case_bool_decide |]; done.
  - run_method. destruct (as_list_of is_Taxon w v) as [l|] eqn:Hv; [|by left].
    right. cbn.
    by apply (as_list_of_Some is_Taxon is_taxon) in Hv as [-> ?];
      [|apply is_Taxon_spec].
  - left. destruct (add_obs_taxon_cases v w)
      as [(e & -> & _) | [(-> & _) | (-> & _)]]; done.
  - left. run_method. by destruct (as_taxon v).
  - left. run_method. by destruct (as_taxon v).
  - left. run_method. by destruct (as_list_of is_position w v).
  - left. run_method. destruct (as_int v); [case_bool_decide |]; done.
  - left. destruct (add_stop_codon_cases v w) as [(e & -> & _) | (-> & _)]; done.
Qed.

Lemma assigned_positions c w :
  _stop_codons (self (perform c w).2) = _stop_codons (self w) ∨
  Forall non_negative_integer (items w (_stop_codons (self (perform c w).2))) ∧
  lists (perform c w).2 = lists w.
Proof.
  destruct c as [v|v|v|v|v|v|v|v]; cbn [perform].
  - left. run_method. destruct (as_int v); [case_bool_decide |]; done.
  - left. run_method. by destruct (as_list_of is_Taxon w v).
  - left. destruct (add_obs_taxon_cases v w)
      as [(e & -> & _) | [(-> & _) | (-> & _)]]; done.
  - left. run_method. by destruct (as_taxon v).
  - left. run_method. by destruct (as_taxon v).
  - run_method. destruct (as_list_of is_position w v) as [l|] eqn:Hv; [|by left].
    right. cbn.
    by apply (as_list_of_Some is_position non_negative_integer) in Hv as [-> ?];
      [|apply is_position_spec].
  - left. run_method. destruct (as_int v); [case_bool_decide |]; done.
  - left. destruct (add_stop_codon_cases v w) as [(e & -> & _) | (-> & _)]; done.
Qed.

Lemma perform_scalars c w :
  (∀ n, seq_length (self w) = Some n → 0 < n) →
  (∀ n, ambiguities (self w) = Some n → 0 ≤ n) →
  (∀ n, seq_length (self (perform c w).2) = Some n → 0 < n) ∧
  (∀ n, ambiguities (self (perform c w).2) = Some n → 0 ≤ n).
Proof.
  intros Hlen Hamb. destruct c as [v|v|v|v|v|v|v|v]; cbn [perform].
  - run_method. destruct (as_int v); [case_bool_decide |]; cbn; try done.
    split; [|done]. intros ? [= <-]. lia.
  - run_method. by destruct (as_list_of is_Taxon w v).
  - destruct (add_obs_taxon_cases v w)
      as [(e & -> & _) | [(-> & _) | (-> & _)]]; done.
  - run_method. by destruct (as_taxon v).
  - run_method. by destruct (as_taxon v).
  - run_method. by destruct (as_list_of is_position w v).
  - run_method. destruct (as_int v); [case_bool_decide |]; cbn; try done.
    split; [done |]. intros ? [= <-]. lia.
  - destruct (add_stop_codon_cases v w) as [(e & -> & _) | (-> & _)]; done.
Qed.

Lemma perform_well_formed c w :
  well_formed w → well_formed (perform c w).2.
Proof.
  intros (Hlen & Hamb & Hobs & Hstops).
  destruct (perform_scalars c w Hlen Hamb) as [Hlen' Hamb'].
  assert (Hitems : ∀ l, Forall taxon_or_position (items w l) →
                        Forall taxon_or_position (items (perform c w).2 l)).
  { intros l Hl. apply items_forall; [done | |].
    - intros v _ ?. by left.
    - intros v _ ?. by right. }
  split_and!; [done | done | |]; unfold obs_taxon, stop_codons.
  - destruct (assigned_taxa c w) as [-> | [Hl _]]; [by apply Hitems |].
    apply Hitems. eapply Forall_impl; [exact Hl |]. intros v ?. by left.
  - destruct (assigned_positions c w) as [-> | [Hl _]]; [by apply Hitems |].
    apply Hitems. eapply Forall_impl; [exact Hl |]. intros v ?. by right.
Qed.

Lemma perform_sorted_out c w :
  separate w → sorted_out w → sorted_out (perform c w).2.
Proof.
  intros Hseparate [Hobs Hstops].
  destruct (perform_same_except c w) as (_ & _ & Hsame_obs & _ & _ & Hsame_stops & _).
  split; unfold obs_taxon, stop_codons.
  - destruct (assigned_taxa c w) as [Heq | [Hl Hlists]].
    + rewrite Heq.
      destruct (decide (Some (_obs_taxon (self w)) = appends_to w c)) as [Ha | Ha];
        [|by rewrite perform_items].
      destruct c as [v|v|v|v|v|v|v|v]; cbn [perform appends_to] in *; try done.
      * destruct (add_obs_taxon_cases v w)
          as [(e & -> & _) | [(-> & _) | (-> & ? & _)]]; try done.
        rewrite append_items, decide_True by done.
        apply Forall_app. split; [done | by apply Forall_singleton].
      * injection Ha as Ha. by destruct Hseparate.
    + unfold items in *. by rewrite Hlists.
  - destruct (assigned_positions c w) as [Heq | [Hl Hlists]].
    + rewrite Heq.
      destruct (decide (Some (_stop_codons (self w)) = appends_to w c)) as [Ha | Ha];
        [|by rewrite perform_items].
      destruct c as [v|v|v|v|v|v|v|v]; cbn [perform appends_to] in *; try done.
      * injection Ha as Ha. by destruct Hseparate.
      * destruct (add_stop_codon_cases v w) as [(e & -> & _) | (-> & ?)]; try done.
        rewrite append_items, decide_True by done.
        apply Forall_app. split; [done | by apply Forall_singleton].
    + unfold items in *. by rewrite Hlists.
Qed.

Lemma __init___lists process_id heap log :
  separate (__init__ (Taxon:=Taxon) process_id heap log) ∧
  obs_taxon (__init__ (Taxon:=Taxon) process_id heap log) = [] ∧
  stop_codons (__init__ (Taxon:=Taxon) process_id heap log) = [].
Proof.
  unfold separate, obs_taxon, stop_codons, items, __init__. cbn.
  set (obs := fresh (dom heap)).
  set (stops := fresh (dom (<[obs := []]> heap))).
  assert (obs ≠ stops) as Hne.
  { intros Heq. apply (is_fresh (dom (<[obs := []]> heap))).
    fold stops. rewrite <- Heq. apply elem_of_dom. by rewrite lookup_insert_eq. }
  split_and!; [done | |].
  - by rewrite lookup_total_insert_ne, lookup_total_insert_eq.
  - by rewrite lookup_total_insert_eq.
Qed.

(** X3: whatever calls a new result receives, with whatever values, a
    length it holds is positive, a count of ambiguities it holds is not
    negative, and its two lists hold taxa and positions that are not
    negative and nothing else.  As long as the calls never leave the two
    attributes with one list, the observed taxa are taxa and the stop
    codons are positions that are not negative. *)
Theorem reachable_well_formed process_id heap log (cs : list (call Taxon)) :
  well_formed (perform_all cs (__init__ process_id heap log)) ∧
  (never_shared (__init__ process_id heap log) cs →
   sorted_out (perform_all cs (__init__ process_id heap log))).
Proof.
  destruct (__init___lists process_id heap log) as (Hseparate & Hobs & Hstops).
  split.
  - assert (Hstart : well_formed (__init__ (Taxon:=Taxon) process_id heap log)).
    { split_and!; [done | done | by rewrite Hobs | by rewrite Hstops]. }
    revert Hstart. generalize (__init__ (Taxon:=Taxon) process_id heap log).
    induction cs as [|c cs IH]; intros w Hw; [done |].
    cbn [perform_all]. apply IH. by apply perform_well_formed.
  - assert (Hstart : sorted_out (__init__ (Taxon:=Taxon) process_id heap log)).
    { split; [by rewrite Hobs | by rewrite Hstops]. }
    revert Hseparate Hstart.
    generalize (__init__ (Taxon:=Taxon) process_id heap log).
    induction cs as [|c cs IH]; intros w Hseparate Hw Hnever; [done |].
    cbn [perform_all]. destruct Hnever as [Hseparate' Hnever].
    apply IH; [done | by apply perform_sorted_out | done].
Qed.

(** *** The log *)

Lemma perform_rejected c w :
  logging (perform c w).2 = logging w ++ option_list (rejected_taxa w c).
Proof.
  destruct c as [v|v|v|v|v|v|v|v]; cbn [perform rejected_taxa option_list];
    rewrite ?app_nil_r.
  - run_method. destruct (as_int v); [case_bool_decide |]; done.
  - run_method. destruct (as_list_of is_Taxon w v); cbn; by rewrite ?app_nil_r.
  - destruct (add_obs_taxon_cases v w)
      as [(e & -> & _) | [(-> & _) | (-> & _)]]; done.
  - run_method. by destruct (as_taxon v).
  - run_method. by destruct (as_taxon v).
  - run_method. by destruct (as_list_of is_position w v).
  - run_method. destruct (as_int v); [case_bool_decide |]; done.
  - destruct (add_stop_codon_cases v w) as [(e & -> & _) | (-> & _)]; done.
Qed.

(** X4: the methods log nothing but the values that assignments to
    [obs_taxon] turned down, one ERROR record each, in the order of the
    calls; the records already in the log stay. *)
Theorem perform_all_logging (cs : list (call Taxon)) w :
  logging (perform_all cs w) = logging w ++ rejections w cs.
Proof.
  revert w. induction cs as [|c cs IH]; intros w; cbn [perform_all rejections].
  - by rewrite app_nil_r.
  - by rewrite IH, perform_rejected, <- app_assoc.
Qed.

(** *** Observed taxa *)

Lemma add_obs_taxon_elem_of t w x :
  x ∈ obs_taxon (add_obs_taxon (PyTaxon t) w).2 ↔
  x ∈ obs_taxon w ∨ x = PyTaxon t.
Proof.
  destruct (add_obs_taxon_cases (PyTaxon t) w)
    as [(e & _ & []) | [(-> & _ & Hin) | (-> & _ & Hin)]]; [by eexists | |].
  - split; [by left | intros [? | ->]; done].
  - rewrite obs_taxon_append, elem_of_app, list_elem_of_singleton. done.
Qed.

Lemma add_obs_taxon_prefix t w :
  obs_taxon w `prefix_of` obs_taxon (add_obs_taxon (PyTaxon t) w).2.
Proof.
  destruct (add_obs_taxon_cases (PyTaxon t) w)
    as [(e & -> & _) | [(-> & _) | (-> & _)]]; [done | done |].
  rewrite obs_taxon_append. by eexists.
Qed.

(** X5: [add_obs_taxon] returns for a Taxon and leaves it among the
    observed taxa, after the taxa that were there, which keep their places;
    a second call with the same value changes nothing more. *)
Theorem add_obs_taxon_idempotent v w :
  (∀ t, v = PyTaxon t →
        (add_obs_taxon v w).1 = inr tt ∧
        PyTaxon t ∈ obs_taxon (add_obs_taxon v w).2 ∧
        obs_taxon w `prefix_of` obs_taxon (add_obs_taxon v w).2) ∧
  (add_obs_taxon v (add_obs_taxon v w).2).2 = (add_obs_taxon v w).2.
Proof.
  split.
  - intros t ->. split_and!.
    + destruct (add_obs_taxon_cases (PyTaxon t) w)
        as [(e & _ & []) | [(-> & _) | (-> & _)]]; [by eexists | done..].
    + apply add_obs_taxon_elem_of. by right.
    + apply add_obs_taxon_prefix.
  - destruct (as_taxon v) as [t|] eqn:Hv.
    + destruct v; try done. injection Hv as ->.
      rewrite (add_obs_taxon_present (PyTaxon t)); [done | by eexists |].
      apply add_obs_taxon_elem_of. by right.
    + run_method. by rewrite Hv.
Qed.

(** X6: adding taxa one by one builds a set: the observed taxa are then
    the ones held before and the ones added, each once if the ones held
    before were each there once, and the ones held before come first. *)
Theorem add_taxa_union (ts : list Taxon) w :
  (∀ x, x ∈ obs_taxon (perform_all (add_taxa ts) w) ↔
        x ∈ obs_taxon w ∨ x ∈ PyTaxon <$> ts) ∧
  obs_taxon w `prefix_of` obs_taxon (perform_all (add_taxa ts) w) ∧
  (NoDup (obs_taxon w) →
   NoDup (obs_taxon (perform_all (add_taxa ts) w))).
Proof.
  revert w. induction ts as [|t ts IH]; intros w; cbn [add_taxa fmap list_fmap perform_all].
  - split_and!; [|done..]. intros x. rewrite elem_of_nil. tauto.
  - destruct (IH (perform (Add_obs_taxon (PyTaxon t)) w).2) as (Hin & Hpre & Hnodup).
    split_and!.
    + intros x. rewrite Hin. cbn [perform].
      rewrite add_obs_taxon_elem_of, elem_of_cons. tauto.
    + etrans; [|exact Hpre]. cbn [perform]. apply add_obs_taxon_prefix.
    + intros Hw. apply Hnodup.
      by apply (perform_adds_observed (Add_obs_taxon (PyTaxon t)) w []).
Qed.

(** X7: when the expected taxon is assigned and the same taxon is added
    to the observed taxa, in either order, [check_taxonomy] is true. *)
Theorem expected_observed_passes t w :
  check_taxonomy
    (perform_all [Set_exp_taxon (PyTaxon t); Add_obs_taxon (PyTaxon t)] w)
  = true ∧
  check_taxonomy
    (perform_all [Add_obs_taxon (PyTaxon t); Set_exp_taxon (PyTaxon t)] w)
  = true.
Proof.
  assert (Hpass : ∀ w', exp_taxon (self w') = Some t →
                        PyTaxon t ∈ obs_taxon w' → check_taxonomy w' = true).
  { intros w' Hexp Hin. apply check_taxonomy_true. exists t.
    split_and!; [done | | done]. intros Hnil. rewrite Hnil in Hin.
    by apply elem_of_nil in Hin. }
  split; apply Hpass; cbn [perform_all perform].
  - destruct (add_obs_taxon_cases (PyTaxon t) (set_exp_taxon (PyTaxon t) w).2)
      as [(e & _ & []) | [(-> & _) | (-> & _)]]; [by eexists | done..].
  - apply add_obs_taxon_elem_of. by right.
  - done.
  - change (obs_taxon (set_exp_taxon (PyTaxon t)
              (add_obs_taxon (PyTaxon t) w).2).2)
      with (obs_taxon (add_obs_taxon (PyTaxon t) w).2).
    apply add_obs_taxon_elem_of. by right.
Qed.

(** *** Stop codons *)

Lemma add_positions_state (ps : list Z) w :
  Forall (λ p, 0 ≤ p) ps →
  self (perform_all (add_positions ps) w) = self w ∧
  ∀ l, items (perform_all (add_positions ps) w) l =
       if decide (_stop_codons (self w) = l)
       then items w l ++ (PyInt <$> ps) else items w l.
Proof.
  intros Hps. revert w.
  induction Hps as [|p ps Hp _ IH]; intros w.
  - split; [done |]. intros l. cbn. case_decide; [by rewrite app_nil_r | done].
  - change (add_positions (p :: ps))
      with (Add_stop_codon (Taxon:=Taxon) (PyInt p) :: add_positions ps).
    cbn [perform_all perform].
    rewrite (add_stop_codon_valid (PyInt p) p) by done.
    destruct (IH (append (_stop_codons (self w)) (PyInt p) w).2) as [Hself Hitems].
    split; [by rewrite Hself |]. intros l. rewrite Hitems.
    change (self (append (_stop_codons (self w)) (PyInt p) w).2) with (self w).
    rewrite append_items. case_decide; [|done].
    subst l. by rewrite <- app_assoc.
Qed.

(** X8: stop codons added one by one are appended to the list of the
    result in the order of the calls, repeats included.  When the observed
    taxa and the stop codons are two lists, the getters then show what they
    show after the assignment of a list that holds the old and the new
    positions. *)
Theorem add_positions_app (ps : list Z) w :
  Forall (λ p, 0 ≤ p) ps →
  stop_codons (perform_all (add_positions ps) w)
    = stop_codons w ++ (PyInt <$> ps) ∧
  (∀ l, separate w →
        Forall non_negative_integer (stop_codons w) →
        items w l = stop_codons w ++ (PyInt <$> ps) →
        (set_stop_codons (PyList l) w).1 = inr tt ∧
        view (set_stop_codons (PyList l) w).2
        = view (perform_all (add_positions ps) w)).
Proof.
  intros Hps. destruct (add_positions_state ps w Hps) as [Hself Hitems].
  assert (Hstops : stop_codons (perform_all (add_positions ps) w)
                   = stop_codons w ++ (PyInt <$> ps)).
  { unfold stop_codons. by rewrite Hself, Hitems, decide_True. }
  split; [done |]. intros l Hseparate Hold Hl.
  rewrite set_stop_codons_valid.
  - split; [done |]. unfold view. rewrite Hstops, Hself. cbn [snd self].
    unfold obs_taxon at 2. rewrite Hself, Hitems.
    rewrite decide_False by (by intros ?; apply Hseparate).
    unfold stop_codons at 1, obs_taxon. cbn. unfold items in *. cbn.
    by rewrite Hl.
  - rewrite Hl. apply Forall_app. split; [done |].
    apply Forall_fmap. eapply Forall_impl; [exact Hps |].
    intros p Hp. by exists p.
Qed.

Lemma perform_stop_codons_loc c w :
  assigns_stop_codons c = false →
  _stop_codons (self (perform c w).2) = _stop_codons (self w).
Proof.
  intros Hc. destruct c as [v|v|v|v|v|v|v|v]; try done; cbn [perform].
  - run_method. destruct (as_int v); [case_bool_decide |]; done.
  - run_method. by destruct (as_list_of is_Taxon w v).
  - destruct (add_obs_taxon_cases v w)
      as [(e & -> & _) | [(-> & _) | (-> & _)]]; done.
  - run_method. by destruct (as_taxon v).
  - run_method. by destruct (as_taxon v).
  - run_method. destruct (as_int v); [case_bool_decide |]; done.
  - destruct (add_stop_codon_cases v w) as [(e & -> & _) | (-> & _)]; done.
Qed.

Lemma perform_stop_codons_prefix c w :
  assigns_stop_codons c = false →
  stop_codons w `prefix_of` stop_codons (perform c w).2.
Proof.
  intros Hc. unfold stop_codons. rewrite perform_stop_codons_loc by done.
  destruct (decide (Some (_stop_codons (self w)) = appends_to w c)) as [Ha | Ha];
    [|by rewrite perform_items].
  destruct c as [v|v|v|v|v|v|v|v]; cbn [perform appends_to] in *; try done.
  - destruct (add_obs_taxon_cases v w)
      as [(e & -> & _) | [(-> & _) | (-> & _)]]; try done.
    rewrite append_items. injection Ha as <-. rewrite decide_True by done.
    by eexists.
  - destruct (add_stop_codon_cases v w) as [(e & -> & _) | (-> & _)]; try done.
    rewrite append_items, decide_True by done. by eexists.
Qed.

(** X9: a stop codon stays: as long as no call assigns to [stop_codons] as
    a whole, the positions a result holds remain, in their places, so a
    result that failed [check_pseudogene] keeps failing it and does not pass
    all checks. *)
Theorem stop_codons_stay config (cs : list (call Taxon)) w :
  Forall (λ c, assigns_stop_codons c = false) cs →
  stop_codons w `prefix_of` stop_codons (perform_all cs w) ∧
  (check_pseudogene w = false →
   check_pseudogene (perform_all cs w) = false ∧
   passes_all_checks config (perform_all cs w) = false).
Proof.
  intros Hcs.
  assert (Hpre : stop_codons w `prefix_of` stop_codons (perform_all cs w)).
  { revert w. induction Hcs as [|c cs Hc _ IH]; intros w; [done |].
    cbn [perform_all]. etrans; [|apply IH]. by apply perform_stop_codons_prefix. }
  split; [done |]. intros Hfails.
  assert (check_pseudogene (perform_all cs w) = false) as Hstill.
  { apply not_true_is_false. rewrite check_pseudogene_true. intros Hnil.
    rewrite Hnil in Hpre. apply prefix_nil_inv in Hpre.
    apply check_pseudogene_true in Hpre. congruence. }
  split; [done |]. unfold passes_all_checks. rewrite Hstill.
  apply andb_false_r.
Qed.
End laws.

Lemma reachable_well_formed_witness :
  sorted_out
    (perform_all [ Set_stop_codons (PyList 2%nat);
                   Add_obs_taxon (PyTaxon Sample.G1);
                   Add_stop_codon (PyInt 7);
                   Set_obs_taxon (PyList 0%nat) ]
       (__init__ "BGENL001-24" Sample.heap [])).
Proof.
  refine (proj2 (reachable_well_formed "BGENL001-24" Sample.heap []
                   [ Set_stop_codons (PyList 2%nat);
                     Add_obs_taxon (PyTaxon Sample.G1);
                     Add_stop_codon (PyInt 7);
                     Set_obs_taxon (PyList 0%nat) ]) _).
  cbn [never_shared]. unfold separate. split_and!; try done; by vm_compute.
Defined.

Lemma add_positions_app_witness :
  stop_codons (perform_all (add_positions [45; 45; 12]) Sample.passing)
  = [] ++ (PyInt <$> [45; 45; 12]) ∧
  view (set_stop_codons (PyList 2%nat) Sample.passing).2
  = view (perform_all (add_positions [45; 45; 12]) Sample.passing).
Proof.
  assert (Hps : Forall (λ p : Z, 0 ≤ p) [45; 45; 12])
    by (repeat constructor; lia).
  destruct (add_positions_app [45; 45; 12] Sample.passing Hps) as [Happ Hset].
  split; [exact Happ |].
  refine (proj2 (Hset 2%nat _ _ _)).
  - by vm_compute.
  - apply (Forall_nil_2 _).
  - by vm_compute.
Defined.

Lemma stop_codons_stay_witness :
  passes_all_checks Sample.config
    (perform_all [ Add_obs_taxon (PyTaxon Sample.G2);
                   Set_seq_length (PyInt 658);
                   Add_stop_codon (PyInt 7) ] Sample.failing)
  = false.
Proof.
  refine (proj2 (proj2 (stop_codons_stay Sample.config
                          [ Add_obs_taxon (PyTaxon Sample.G2);
                            Set_seq_length (PyInt 658);
                            Add_stop_codon (PyInt 7) ] Sample.failing _) _)).
  - repeat constructor.
  - by vm_compute.
Defined.
End ResultLaws.

(** * Further properties of taxonomy.py *)

Module TaxonomyLaws.
Import Taxonomy Selection.
Import TaxonomyFacts.

(** *** The lineage resolver *)

Section resolver.
Context {Tree Node : Type} `{TaxonomyTree Tree Node}.
Implicit Types (tree : Tree) (tip node : Node) (taxids : gset string)
               (config : Config).

Lemma collect_tips_spec taxids (terminals tips : list Node) :
  match collect_tips taxids terminals tips with
  | inl e =>
      e = KeyError "taxon" ∧
      ∃ tip, tip ∈ terminals ∧ guids tip !! "taxon" = None
  | inr l =>
      (∀ tip, tip ∈ terminals → is_Some (guids tip !! "taxon")) ∧
      l = tips ++ filter (λ tip, selected taxids tip) terminals
  end.
Proof.
  revert tips. induction terminals as [|tip terminals IH]; intros tips; cbn.
  - split; [by intros ? ?%elem_of_nil | by rewrite app_nil_r].
  - destruct (guids tip !! "taxon") as [taxid|] eqn:Hguid.
    + specialize (IH (if bool_decide (taxid ∈ taxids) then tips ++ [tip] else tips)).
      destruct (collect_tips _ _ _) as [e|l].
      * destruct IH as (-> & tip' & ? & ?). split; [done |].
        exists tip'. split; [by right | done].
      * destruct IH as (Hall & ->). split.
        -- intros tip' [-> | ?]%elem_of_cons; [by rewrite Hguid | auto].
        -- destruct (decide (selected taxids tip)) as [Hsel|Hsel];
             unfold selected in Hsel; rewrite Hguid in Hsel;
             case_bool_decide; try done.
           by rewrite <- app_assoc.
    + split; [done |]. exists tip. split; [by left | done].
Qed.

Lemma collect_path_elem_of config (path : list Node) taxa x :
  x ∈ collect_path config taxa path ↔
  x ∈ taxa ∨
  ∃ node, node ∈ path ∧ taxonomic_rank node = lower (level config) ∧
          x ∈ chars (name node).
Proof.
  unfold collect_path. revert taxa.
  induction path as [|node path IH]; intros taxa; cbn [foldl].
  - split; [by left | intros [? | (? & ?%elem_of_nil & _)]; done].
  - rewrite IH. case_bool_decide as Hrank.
    + unfold set_update_str. rewrite elem_of_union, elem_of_list_to_set. split.
      * intros [[? | ?] | (node' & ? & ? & ?)]; [by left | right..].
        -- exists node. split_and!; [by left | done..].
        -- exists node'. split_and!; [by right | done..].
      * intros [? | (node' & [-> | ?]%elem_of_cons & ? & ?)].
        -- by left; left.
        -- by left; right.
        -- right. by exists node'.
    + split.
      * intros [? | (node' & ? & ? & ?)]; [by left | right].
        exists node'. split_and!; [by right | done..].
      * intros [? | (node' & [-> | ?]%elem_of_cons & ? & ?)];
          [by left | done | right]. by exists node'.
Qed.

Lemma collect_all_elem_of config tree (tips : list Node) taxa x :
  x ∈ foldl (λ taxa tip, collect_path config taxa (root_get_path tree tip))
        taxa tips ↔
  x ∈ taxa ∨
  ∃ tip node, tip ∈ tips ∧ ancestor_at config tree tip node ∧
              x ∈ chars (name node).
Proof.
  revert taxa. induction tips as [|tip tips IH]; intros taxa; cbn [foldl].
  - split; [by left | intros [? | (? & ? & ?%elem_of_nil & _)]; done].
  - rewrite IH, collect_path_elem_of. unfold ancestor_at. split.
    + intros [[? | (node & ? & ? & ?)] | (tip' & node & ? & [? ?] & ?)];
        [by left | right..].
      * exists tip, node. split_and!; [by left | done..].
      * exists tip', node. split_and!; [by right | done..].
    + intros [? | (tip' & node & [-> | ?]%elem_of_cons & [? ?] & ?)].
      * by left; left.
      * left; right. by exists node.
      * right. by exists tip', node.
Qed.

(** What [collect_lineages] returns, entry by entry. *)
Lemma collect_lineages_elem_of config taxids tree l x :
  collect_lineages config taxids tree = inr l →
  x ∈ l ↔
  ∃ tip node, tip ∈ get_terminals tree ∧ selected taxids tip ∧
              ancestor_at config tree tip node ∧ x ∈ chars (name node).
Proof.
  unfold collect_lineages.
  pose proof (collect_tips_spec taxids (get_terminals tree) []) as Htips.
  destruct (collect_tips _ _ _) as [e|tips]; [done |].
  destruct Htips as (_ & ->). intros [= <-].
  rewrite elem_of_elements, collect_all_elem_of. cbn [app]. split.
  - intros [?%not_elem_of_empty | (tip & node & [? ?]%list_elem_of_filter & ? & ?)];
      [done |]. by exists tip, node.
  - intros (tip & node & ? & ? & ? & ?). right. exists tip, node.
    split_and!; [by apply list_elem_of_filter | done..].
Qed.

Lemma collect_lineages_inl config taxids tree e :
  collect_lineages config taxids tree = inl e → e = KeyError "taxon".
Proof.
  unfold collect_lineages.
  pose proof (collect_tips_spec taxids (get_terminals tree) []) as Htips.
  destruct (collect_tips _ _ _) as [e'|tips]; [|done].
  destruct Htips as [-> _]. by intros [= <-].
Qed.

(** X10: [collect_lineages] raises exactly when a tip of the tree has
    no 'taxon' guid, whether or not the identifiers would select that tip;
    what it raises is KeyError('taxon'). *)
Theorem collect_lineages_KeyError config taxids tree :
  (collect_lineages config taxids tree = inl (KeyError "taxon") ↔
   ∃ tip, tip ∈ get_terminals tree ∧ guids tip !! "taxon" = None) ∧
  (∀ e, collect_lineages config taxids tree = inl e → e = KeyError "taxon").
Proof.
  unfold collect_lineages.
  pose proof (collect_tips_spec taxids (get_terminals tree) []) as Htips.
  destruct (collect_tips _ _ _) as [e|tips].
  - destruct Htips as (-> & Hmissing). split; [done |]. by intros e [= <-].
  - destruct Htips as (Hall & _). split; [|done]. split; [done |].
    intros (tip & Hin & Hnone). apply Hall in Hin as [? ?]. congruence.
Qed.

Lemma selected_filter_ext taxids taxids' (terminals : list Node) :
  (∀ tip, tip ∈ terminals → selected taxids tip = selected taxids' tip) →
  filter (λ tip, selected taxids tip) terminals
  = filter (λ tip, selected taxids' tip) terminals.
Proof.
  induction terminals as [|tip terminals IH]; intros Hsame; [done |].
  rewrite !filter_cons, (Hsame tip) by left.
  rewrite IH; [done |]. intros tip' ?. apply Hsame. by right.
Qed.

(** The identifiers count for the tips they select and for nothing else. *)
Lemma collect_lineages_ext config taxids taxids' tree :
  (∀ tip, tip ∈ get_terminals tree →
          selected taxids tip = selected taxids' tip) →
  collect_lineages config taxids tree = collect_lineages config taxids' tree.
Proof.
  intros Hsame. unfold collect_lineages.
  pose proof (collect_tips_spec taxids (get_terminals tree) []) as Htips.
  pose proof (collect_tips_spec taxids' (get_terminals tree) []) as Htips'.
  destruct (collect_tips taxids _ _) as [e|tips],
           (collect_tips taxids' _ _) as [e'|tips'].
  - destruct Htips as [-> _], Htips' as [-> _]. done.
  - destruct Htips as (_ & tip & Hin & Hnone), Htips' as (Hall & _).
    apply Hall in Hin as [? ?]. congruence.
  - destruct Htips' as (_ & tip & Hin & Hnone), Htips as (Hall & _).
    apply Hall in Hin as [? ?]. congruence.
  - destruct Htips as (_ & ->), Htips' as (_ & ->).
    by rewrite (selected_filter_ext taxids taxids').
Qed.

(** X11: identifiers that no tip of the tree carries are dropped: with
    or without them, [collect_lineages] returns the same list or raises the
    same exception. *)
Theorem collect_lineages_unmatched config taxids (extra : gset string) tree :
  (∀ tip taxid, tip ∈ get_terminals tree →
                guids tip !! "taxon" = Some taxid → taxid ∉ extra) →
  collect_lineages config (taxids ∪ extra) tree
  = collect_lineages config taxids tree.
Proof.
  intros Hextra. apply collect_lineages_ext. intros tip Hin.
  unfold selected. destruct (guids tip !! "taxon") as [taxid|] eqn:Hguid; [|done].
  specialize (Hextra tip taxid Hin Hguid).
  apply bool_decide_ext. rewrite elem_of_union. tauto.
Qed.

(** X12: selected tips without an ancestor at the configured rank
    contribute nothing: when no selected tip has one, and so when no tip is
    selected or no identifier is given, the list returned is empty. *)
Theorem collect_lineages_nil config taxids tree :
  (∀ l, (∀ tip node, tip ∈ get_terminals tree → selected taxids tip →
                     ¬ ancestor_at config tree tip node) →
        collect_lineages config taxids tree = inr l → l = []) ∧
  (∀ l, collect_lineages config ∅ tree = inr l → l = []).
Proof.
  assert (Hnil : ∀ taxids l,
    (∀ tip node, tip ∈ get_terminals tree → selected taxids tip →
                 ¬ ancestor_at config tree tip node) →
    collect_lineages config taxids tree = inr l → l = []).
  { intros taxids' l Hnone Hl. apply elem_of_nil_inv. intros x Hx.
    apply (collect_lineages_elem_of _ _ _ _ x Hl) in Hx
      as (tip & node & ? & ? & ? & _).
    by eapply Hnone. }
  split; [apply Hnil |]. intros l. apply Hnil.
  intros tip node _ Hsel. unfold selected in Hsel.
  destruct (guids tip !! "taxon"); [|done].
  by rewrite bool_decide_eq_false_2 in Hsel by set_solver.
Qed.

Lemma selected_mono taxids taxids' tip :
  taxids ⊆ taxids' → selected taxids tip → selected taxids' tip.
Proof.
  intros Hsub. unfold selected. destruct (guids tip !! "taxon"); [|done].
  rewrite !bool_decide_spec. set_solver.
Qed.

(** X13: the list returned holds no entry twice, and more identifiers
    give no fewer entries. *)
Theorem collect_lineages_mono config taxids taxids' tree l l' :
  taxids ⊆ taxids' →
  collect_lineages config taxids tree = inr l →
  collect_lineages config taxids' tree = inr l' →
  NoDup l ∧ NoDup l' ∧ l ⊆ l'.
Proof.
  intros Hsub Hl Hl'. split_and!.
  - unfold collect_lineages in Hl. destruct (collect_tips _ _ _); [done |].
    injection Hl as <-. apply NoDup_elements.
  - unfold collect_lineages in Hl'. destruct (collect_tips _ _ _); [done |].
    injection Hl' as <-. apply NoDup_elements.
  - intros x Hx.
    apply (collect_lineages_elem_of _ _ _ _ x Hl) in Hx
      as (tip & node & ? & ? & ? & ?).
    apply (collect_lineages_elem_of _ _ _ _ x Hl').
    exists tip, node. split_and!; [done | by eapply selected_mono | done..].
Qed.

Lemma lower_ascii_idemp a : lower_ascii (lower_ascii a) = lower_ascii a.
Proof. by destruct a as [[] [] [] [] [] [] [] []]. Qed.

Lemma lower_idemp s : lower (lower s) = lower s.
Proof.
  induction s as [|a s IH]; [done |]. cbn. by rewrite lower_ascii_idemp, IH.
Qed.

(** X14: the configured rank counts in lower case, and nothing else of the
    configuration counts: 'Genus' and 'genus' resolve alike. *)
Theorem collect_lineages_level_case taxids tree m m' i i' rank :
  collect_lineages (mkConfig m (lower rank) i) taxids tree
  = collect_lineages (mkConfig m' rank i') taxids tree.
Proof.
  unfold collect_lineages, collect_path. cbn [level].
  by rewrite lower_idemp.
Qed.
End resolver.

(** *** The remote search *)

Section seqid.
Context {Sequence Net Tree : Type}.
Variable qblast : Sequence → M Net (list string).
Variable esummary : string → M Net string.
Variable efetch : string → M Net (list (string * string)).
Variable run_boldigger2 : Sequence → M (@World Net) (option (list string)).
Variable run_localblast : Sequence → Tree → M (@World Net) (list string).

Local Abbreviation fetch_lineage := (fetch_lineage esummary efetch).
Local Abbreviation fetch_lineages := (fetch_lineages esummary efetch).
Local Abbreviation run_blast := (run_blast qblast esummary efetch).
Local Abbreviation run_seqid :=
  (run_seqid qblast esummary efetch run_boldigger2 run_localblast).

(** One hit: its lineage is appended, or one error is logged. *)
Lemma fetch_lineage_cases accession lineages (w : World) :
  (∃ lineage w', fetch_lineage accession lineages w
                 = (inr (lineages ++ [lineage]), w') ∧
                 logging w' = logging w) ∨
  (∃ e w', fetch_lineage accession lineages w = (inl e, w') ∧
           logging w' = logging w).
Proof.
  unfold Taxonomy.fetch_lineage. cbv [mbind mret M_bind M_ret Py.bind Py.ret on_net].
  destruct (esummary accession (net w)) as [[e|taxon_id] n1]; cbn.
  - right. by eexists _, _.
  - destruct (efetch taxon_id n1) as [[e|lineage_ex] n2]; cbn.
    + right. by eexists _, _.
    + left. by eexists _, _.
Qed.

Lemma fetch_lineages_split top_hits lineages (w : World) :
  ∃ fetched errors w',
    fetch_lineages top_hits lineages w = (inr (lineages ++ fetched), w') ∧
    logging w' = logging w ++ errors ∧
    Forall (λ record, Py.level record = ERROR) errors ∧
    (length fetched + length errors = length top_hits)%nat.
Proof.
  revert lineages w.
  induction top_hits as [|accession top_hits IH]; intros lineages w.
  - exists [], [], w. cbn. by rewrite !app_nil_r.
  - cbn [Taxonomy.fetch_lineages]. cbv [mbind M_bind Py.bind try_except].
    destruct (fetch_lineage_cases accession lineages w)
      as [(lineage & w1 & -> & Hlog) | (e & w1 & -> & Hlog)].
    + destruct (IH (lineages ++ [lineage]) w1)
        as (fetched & errors & w' & -> & Hlog' & Herrors & Hcount).
      exists (lineage :: fetched), errors, w'.
      rewrite <- app_assoc. split_and!; [done | congruence | done |].
      cbn. lia.
    + cbv [log mret M_ret Py.ret]. cbn.
      match goal with
      | |- context [Taxonomy.fetch_lineages _ _ top_hits lineages ?w2] =>
          destruct (IH lineages w2)
            as (fetched & errors & w' & -> & Hlog' & Herrors & Hcount)
      end.
      cbn in Hlog'. rewrite Hlog, <- app_assoc in Hlog'.
      eexists fetched, (_ :: errors), w'.
      split_and!; [done | exact Hlog' | by constructor |].
      cbn. lia.
Qed.

(** X15: the loop over the hits takes the hits in order and accounts for
    each one.  For a hit whose summary and taxonomy record are fetched, it
    appends the lineage of that record, logs nothing and goes on with the
    hits that remain; for a hit whose summary or whose taxonomy record
    raises, it appends nothing, logs one error that names the accession and
    the exception, and goes on with the hits that remain; without hits it
    returns the lineages it has.  So it appends one lineage for each hit
    that was fetched and logs one error for each hit that was not, and
    keeps the lineages and the log it started from. *)
Theorem fetch_lineages_accounts :
  (∀ lineages (w : World), fetch_lineages [] lineages w = (inr lineages, w)) ∧
  (∀ accession top_hits lineages (w : World) taxon_id n1 lineage_ex n2,
     esummary accession (net w) = (inr taxon_id, n1) →
     efetch taxon_id n1 = (inr lineage_ex, n2) →
     fetch_lineages (accession :: top_hits) lineages w
     = fetch_lineages top_hits
         (lineages ++ [foldl (λ d rank, <[rank.1 := rank.2]> d) ∅ lineage_ex])
         {| net := n2; logging := logging w |}) ∧
  (∀ accession top_hits lineages (w : World) e n,
     esummary accession (net w) = (inl e, n) ∨
     (∃ taxon_id n1, esummary accession (net w) = (inr taxon_id, n1) ∧
                     efetch taxon_id n1 = (inl e, n)) →
     fetch_lineages (accession :: top_hits) lineages w
     = fetch_lineages top_hits lineages
         {| net := n;
            logging := logging w ++
              [mkLogRecord ERROR
                 ("Error fetching taxonomy for " +:+ accession
                    +:+ ": " +:+ str_exn e)] |}) ∧
  (∀ top_hits lineages (w : World),
     ∃ fetched errors w',
       fetch_lineages top_hits lineages w = (inr (lineages ++ fetched), w') ∧
       logging w' = logging w ++ errors ∧
       Forall (λ record, Py.level record = ERROR) errors ∧
       (length fetched + length errors = length top_hits)%nat).
Proof.
  split_and!.
  - done.
  - intros accession top_hits lineages w taxon_id n1 lineage_ex n2 Hsummary Hfetch.
    cbn [Taxonomy.fetch_lineages]. unfold Taxonomy.fetch_lineage.
    cbv [mbind mret M_bind M_ret Py.bind Py.ret try_except on_net].
    rewrite Hsummary. cbn. by rewrite Hfetch.
  - intros accession top_hits lineages w e n Hraises.
    cbn [Taxonomy.fetch_lineages]. unfold Taxonomy.fetch_lineage.
    cbv [mbind mret M_bind M_ret Py.bind Py.ret try_except on_net log].
    destruct Hraises as [Hsummary | (taxon_id & n1 & Hsummary & Hfetch)].
    + by rewrite Hsummary.
    + rewrite Hsummary. cbn. by rewrite Hfetch.
  - apply fetch_lineages_split.
Qed.

Lemma taxa_at_elem_of target_level (lineages : list (gmap string string)) x :
  x ∈ taxa_at target_level lineages ↔
  ∃ lineage, lineage ∈ lineages ∧ lineage !! target_level = Some x.
Proof.
  unfold taxa_at. rewrite elem_of_elements, elem_of_list_to_set.
  rewrite list_elem_of_omap. naive_solver.
Qed.

Lemma omap_length_le {A B} (f : A → option B) (l : list A) :
  (length (omap f l) ≤ length l)%nat.
Proof. induction l as [|x l IH]; cbn; [done |]. destruct (f x); cbn; lia. Qed.

Lemma taxa_at_length target_level (lineages : list (gmap string string)) :
  (length (taxa_at target_level lineages) ≤ length lineages)%nat.
Proof.
  unfold taxa_at.
  etrans; [|apply (omap_length_le (λ lineage : gmap string string,
                                     lineage !! target_level))].
  apply submseteq_length, NoDup_submseteq; [apply NoDup_elements |].
  intros x. by rewrite elem_of_elements, elem_of_list_to_set.
Qed.

(** X16: [run_blast] raises what the search raises and nothing else: a
    failure of the search is passed on with nothing logged; once the search
    has answered, [run_blast] returns, whatever the lookups of the hits
    do. *)
Theorem run_blast_raises_search config sequence (w : World) :
  (∀ e n, qblast sequence (net w) = (inl e, n) →
          run_blast config sequence w
          = (inl e, {| net := n; logging := logging w |})) ∧
  (∀ alignments n, qblast sequence (net w) = (inr alignments, n) →
                   ∃ l w', run_blast config sequence w = (inr l, w')).
Proof.
  split.
  - intros e n Hsearch. unfold Taxonomy.run_blast.
    cbv [mbind M_bind Py.bind on_net]. by rewrite Hsearch.
  - intros alignments n Hsearch. unfold Taxonomy.run_blast.
    cbv [mbind M_bind Py.bind on_net]. rewrite Hsearch.
    destruct (fetch_lineages_split (take 10 alignments) []
                {| net := n; logging := logging w |})
      as (fetched & errors & w' & -> & _).
    destruct (taxa_at _ _); by eexists _, _.
Qed.

Lemma run_blast_returns config sequence (w w' : World) l :
  run_blast config sequence w = (inr l, w') →
  l ≠ [] ∧ NoDup l ∧ (length l ≤ 10)%nat.
Proof.
  unfold Taxonomy.run_blast. cbv [mbind M_bind Py.bind on_net].
  destruct (qblast sequence (net w)) as [[e|alignments] n]; [done |].
  destruct (fetch_lineages_split (take 10 alignments) []
              {| net := n; logging := logging w |})
    as (fetched & errors & w1 & -> & _ & _ & Hcount).
  cbn [app].
  pose proof (taxa_at_length (level config) fetched) as Hlen.
  assert (NoDup (taxa_at (level config) fetched)) as Hnodup
    by apply NoDup_elements.
  destruct (taxa_at (level config) fetched) as [|x taxa] eqn:Htaxa.
  - cbv [log mret M_ret Py.ret]. intros [= <- _].
    split_and!; [done | apply NoDup_singleton | cbn; lia].
  - cbv [mret M_ret Py.ret]. intros [= <- _]. split_and!; [done..|].
    rewrite length_take in Hcount. lia.
Qed.

(** X17: the list [run_blast] returns is never empty, holds no name
    twice and has at most ten names, one per hit looked at. *)
Theorem run_blast_shape config sequence (w w' : World) l :
  run_blast config sequence w = (inr l, w') →
  l ≠ [] ∧ NoDup l ∧ (length l ≤ 10)%nat.
Proof. apply run_blast_returns. Qed.

(** X18: when a lineage fetched has an entry at the target rank,
    [run_blast] returns the names that the lineages have at that rank, all
    of them and no other, and logs no warning. *)
Theorem run_blast_consensus config sequence (w w' : World)
    alignments n lineages :
  qblast sequence (net w) = (inr alignments, n) →
  fetch_lineages (take 10 alignments) []
    {| net := n; logging := logging w |} = (inr lineages, w') →
  (∃ lineage, lineage ∈ lineages ∧ is_Some (lineage !! level config)) →
  ∃ l, run_blast config sequence w = (inr l, w') ∧
       ∀ x, x ∈ l ↔
            ∃ lineage, lineage ∈ lineages ∧ lineage !! level config = Some x.
Proof.
  intros Hsearch Hfetch (lineage & Hin & [x Hx]).
  exists (taxa_at (level config) lineages). split; [|apply taxa_at_elem_of].
  unfold Taxonomy.run_blast. cbv [mbind M_bind Py.bind on_net].
  rewrite Hsearch, Hfetch.
  destruct (taxa_at (level config) lineages) eqn:Htaxa; [|done].
  assert (x ∈ taxa_at (level config) lineages) as Hmem
    by (apply taxa_at_elem_of; eauto).
  rewrite Htaxa in Hmem. by apply elem_of_nil in Hmem.
Qed.

Lemma lineage_lookup_other (lineage_ex : list (string * string))
    (d : gmap string string) rank :
  rank ∉ lineage_ex.*1 →
  foldl (λ d pair, <[pair.1 := pair.2]> d) d lineage_ex !! rank = d !! rank.
Proof.
  revert d. induction lineage_ex as [|[r x] lineage_ex IH]; intros d Hnotin;
    [done |].
  cbn [foldl fst snd]. cbn in Hnotin. apply not_elem_of_cons in Hnotin as [? ?].
  rewrite IH by done. by rewrite lookup_insert_ne.
Qed.

(** X19: the lineage of a hit has one entry for each rank of the taxonomy
    record: the name of the last record with that rank, where a rank comes
    more than once; a rank that does not come has no entry. *)
Theorem fetch_lineage_last_wins accession lineages (w : World)
    taxon_id n1 lineage_ex n2 :
  esummary accession (net w) = (inr taxon_id, n1) →
  efetch taxon_id n1 = (inr lineage_ex, n2) →
  ∃ lineage,
    fetch_lineage accession lineages w
    = (inr (lineages ++ [lineage]), {| net := n2; logging := logging w |}) ∧
    (∀ before rank name after,
       lineage_ex = before ++ (rank, name) :: after →
       rank ∉ after.*1 → lineage !! rank = Some name) ∧
    (∀ rank, rank ∉ lineage_ex.*1 → lineage !! rank = None).
Proof.
  intros Hsummary Hfetch. eexists. split_and!.
  - unfold Taxonomy.fetch_lineage.
    cbv [mbind mret M_bind M_ret Py.bind Py.ret on_net].
    rewrite Hsummary. cbn. rewrite Hfetch. done.
  - intros before rank name after -> Hafter.
    rewrite foldl_app. cbn [foldl fst snd].
    rewrite lineage_lookup_other by done. apply lookup_insert_eq.
  - intros rank Hrank. by rewrite lineage_lookup_other.
Qed.


(** X20: what the dispatcher returns for the method 'blast' is a list
    that is not empty; it returns [None] only for the method 'boldigger2' or
    for a method that is none of the three. *)
Theorem run_seqid_result config sequence (ncbi_tree : Tree) (w w' : World) r :
  run_seqid config sequence ncbi_tree w = (inr r, w') →
  (idcheck config = "blast" → ∃ l, r = Some l ∧ l ≠ []) ∧
  (r = None →
   idcheck config = "boldigger2" ∨
   idcheck config ∉ ["boldigger2"; "blast"; "localblast"]).
Proof.
  unfold Taxonomy.run_seqid. cbv zeta.
  destruct (decide (idcheck config = "boldigger2")) as [Hb | Hb].
  { rewrite bool_decide_eq_true_2 by done. intros _.
    split; [by rewrite Hb | by left]. }
  rewrite (bool_decide_eq_false_2 _ Hb).
  destruct (decide (idcheck config = "blast")) as [Hq | Hq].
  { rewrite bool_decide_eq_true_2 by done.
    cbv [mbind mret M_bind M_ret Py.bind Py.ret].
    destruct (run_blast config sequence w) as [[e|l] w1] eqn:Hrun; [done |].
    intros [= <- <-]. split; [|done]. intros _. exists l. split; [done |].
    by apply run_blast_returns in Hrun as [? _]. }
  rewrite (bool_decide_eq_false_2 _ Hq).
  destruct (decide (idcheck config = "localblast")) as [Hl | Hl].
  { rewrite bool_decide_eq_true_2 by done.
    cbv [mbind mret M_bind M_ret Py.bind Py.ret].
    destruct (run_localblast sequence ncbi_tree w) as [[e|l] w1]; [done |].
    intros [= <- <-]. done. }
  intros _. split; [done |]. intros _. right.
  intros Hin. repeat (apply elem_of_cons in Hin as [? | Hin]; [done |]).
  by apply elem_of_nil in Hin.
Qed.
End seqid.

Lemma collect_lineages_unmatched_witness :
  collect_lineages Phylo.genus_config ({[ "10" ]} ∪ {[ "999" ]}) Phylo.scenario
  = collect_lineages Phylo.genus_config {[ "10" ]} Phylo.scenario.
Proof.
  apply collect_lineages_unmatched. intros tip taxid Hin Hguid.
  cbn in Hin.
  repeat (apply elem_of_cons in Hin as [-> | Hin]);
    [..| by apply elem_of_nil in Hin];
    vm_compute in Hguid; injection Hguid as <-;
    intros Hextra%elem_of_singleton; discriminate Hextra.
Defined.

Lemma collect_lineages_mono_witness :
  NoDup ["G"; "1"] ∧ NoDup ["G"; "1"; "2"] ∧ ["G"; "1"] ⊆ ["G"; "1"; "2"].
Proof.
  apply (collect_lineages_mono Phylo.genus_config
           {[ "10" ]} {[ "10"; "20" ]} Phylo.scenario).
  - intros x Hx%elem_of_singleton. apply elem_of_union. left.
    by apply elem_of_singleton.
  - vm_compute. reflexivity.
  - vm_compute. reflexivity.
Defined.

Lemma run_blast_shape_witness :
  ["Unknown"] ≠ [] ∧ NoDup ["Unknown"] ∧ (length ["Unknown"] ≤ 10)%nat.
Proof.
  refine (run_blast_shape Remote.qblast Remote.esummary Remote.efetch
            Phylo.genus_config "ACGT" Remote.start _ ["Unknown"] _).
  vm_compute. reflexivity.
Defined.

Lemma run_blast_consensus_witness :
  ∃ l, Remote.run_blast Remote.family_config "ACGT" Remote.start
       = (inr l,
          {| net := 4%nat;
             logging := [mkLogRecord ERROR
               "Error fetching taxonomy for MN654321: HTTP Error 400: Bad Request"] |}) ∧
       ∀ x, x ∈ l ↔
            ∃ lineage,
              lineage ∈ [ ({[ "order" := "Hymenoptera"; "family" := "Apidae" ]}
                           : gmap string string) ] ∧
              lineage !! "family" = Some x.
Proof.
  refine (run_blast_consensus Remote.qblast Remote.esummary Remote.efetch
            Remote.family_config "ACGT" Remote.start _
            ["MN123456"; "MN654321"] 1%nat _ _ _ _).
  - reflexivity.
  - vm_compute. reflexivity.
  - eexists. split; [by left |]. vm_compute. by eexists.
Defined.

Lemma fetch_lineage_last_wins_witness :
  ∃ lineage,
    fetch_lineage Remote.esummary Remote.efetch "MN123456" [] Remote.start
    = (inr ([] ++ [lineage]), {| net := 2%nat; logging := [] |}) ∧
    (∀ before rank name after,
       [("order", "Hymenoptera"); ("family", "Apidae")]
       = before ++ (rank, name) :: after →
       rank ∉ after.*1 → lineage !! rank = Some name) ∧
    (∀ rank, rank ∉ [("order", "Hymenoptera"); ("family", "Apidae")].*1 →
             lineage !! rank = None).
Proof.
  refine (fetch_lineage_last_wins Remote.esummary Remote.efetch
            "MN123456" [] Remote.start "7460" 1%nat
            [("order", "Hymenoptera"); ("family", "Apidae")] 2%nat _ _);
    reflexivity.
Defined.

Lemma run_seqid_result_witness :
  (idcheck Remote.blast_config = "blast" →
   ∃ l, Some ["Unknown"] = Some l ∧ l ≠ []) ∧
  (Some ["Unknown"] = None →
   idcheck Remote.blast_config = "boldigger2" ∨
   idcheck Remote.blast_config ∉ ["boldigger2"; "blast"; "localblast"]).
Proof.
  refine (run_seqid_result Remote.qblast Remote.esummary Remote.efetch
            Remote.run_boldigger2
            (LocalBlast.run_localblast Remote.blastn Remote.blast_config)
            Remote.blast_config "ACGT" Phylo.scenario Remote.start _
            (Some ["Unknown"]) _).
  vm_compute. reflexivity.
Defined.
End TaxonomyLaws.

(** * Properties of the reader of the search table *)

Module LocalBlastLaws.
Import Taxonomy LocalBlast Text.

(** *** Strings and their characters *)

Lemma append_nil (s : string) : EmptyString +:+ s = s.
Proof. done. Qed.

Lemma append_cons a (s1 s2 : string) :
  String a s1 +:+ s2 = String a (s1 +:+ s2).
Proof. done. Qed.

Lemma append_nil_r (s : string) : s +:+ EmptyString = s.
Proof. induction s as [|a s IH]; [done |]. by rewrite append_cons, IH. Qed.

Lemma append_assoc (s1 s2 s3 : string) :
  (s1 +:+ s2) +:+ s3 = s1 +:+ (s2 +:+ s3).
Proof.
  induction s1 as [|a s1 IH]; [done |]. by rewrite !append_cons, IH.
Qed.

Lemma length_append (s1 s2 : string) :
  String.length (s1 +:+ s2) = (String.length s1 + String.length s2)%nat.
Proof.
  induction s1 as [|a s1 IH]; [done |]. rewrite append_cons. cbn. by rewrite IH.
Qed.

Lemma length_zero (s : string) : String.length s = 0%nat → s = EmptyString.
Proof. by destruct s. Qed.

Lemma string_length_ind (P : string → Prop) :
  (∀ s, (∀ s', (String.length s' < String.length s)%nat → P s') → P s) →
  ∀ s, P s.
Proof. intros Hind. apply (induction_ltof1 _ String.length). exact Hind. Qed.

Lemma occurs_cons a b s : occurs a (String b s) ↔ a = b ∨ occurs a s.
Proof. unfold occurs. cbn. apply elem_of_cons. Qed.

Lemma occurs_nil a : ¬ occurs a EmptyString.
Proof. unfold occurs. cbn. apply not_elem_of_nil. Qed.

Lemma occurs_append a s1 s2 : occurs a (s1 +:+ s2) ↔ occurs a s1 ∨ occurs a s2.
Proof.
  induction s1 as [|b s1 IH].
  - rewrite append_nil. split; [by right | intros [?%occurs_nil | ?]; done].
  - rewrite append_cons, !occurs_cons, IH. tauto.
Qed.

(** *** Whitespace *)

(** Turns the tests on the bytes of a character into (in)equations. *)
Ltac bytes_of_isspace :=
  repeat first [ rewrite andb_true_iff | rewrite orb_true_iff
               | rewrite N.eqb_eq | rewrite N.leb_le ].

Lemma isspace_length e :
  isspace e = true → e ≠ EmptyString ∧ (String.length e ≤ 3)%nat.
Proof.
  destruct e as [|a [|b [|c [|d e]]]]; try done; intros _; (split; [done | cbn; lia]).
Qed.

(** A whitespace character of more than one byte has no byte below 128. *)
Lemma isspace_bytes e a :
  isspace e = true → (1 < String.length e)%nat → occurs a e →
  (128 ≤ Ascii.N_of_ascii a)%N.
Proof.
  destruct e as [|x [|y [|z [|u e]]]]; try done; [cbn; lia | |];
    unfold isspace; cbv zeta; bytes_of_isspace;
    intros He _; rewrite !occurs_cons;
    intros Ha; repeat (destruct_or! || destruct_and!);
    try (by apply occurs_nil in Ha); subst; lia.
Qed.

Lemma isspace_ascii e sep :
  (Ascii.N_of_ascii sep < 128)%N → occurs sep e → (1 < String.length e)%nat →
  isspace e = false.
Proof.
  intros Hsep Hin Hlen. apply not_true_is_false. intros He.
  pose proof (isspace_bytes e sep He Hlen Hin). lia.
Qed.

(** *** [rstrip] *)

Lemma rstrip_cons a s :
  rstrip (String a s) =
  if isspace (String a (rstrip s)) then EmptyString else String a (rstrip s).
Proof. done. Qed.

Lemma rstrip_prefix s : ∃ w, s = rstrip s +:+ w.
Proof.
  induction s as [|a s [w IH]]; [by exists EmptyString |].
  rewrite rstrip_cons. destruct (isspace _).
  - by eexists.
  - exists w. by rewrite append_cons, <- IH.
Qed.

(** What [rstrip] returns does not end in whitespace. *)
Lemma rstrip_trimmed s p e : isspace e = true → rstrip s ≠ p +:+ e.
Proof.
  intros He. revert p. induction s as [|a s IH]; intros p.
  - destruct p, e; done.
  - rewrite rstrip_cons. destruct (isspace (String a (rstrip s))) eqn:Hspace.
    + destruct p, e; done.
    + destruct p as [|b p].
      * rewrite append_nil. intros <-. congruence.
      * rewrite append_cons. intros [= <- Heq]. by eapply IH.
Qed.

Lemma rstrip_fixed s :
  (∀ p e, isspace e = true → s ≠ p +:+ e) → rstrip s = s.
Proof.
  induction s as [|a s IH]; intros Hs; [done |].
  rewrite rstrip_cons, IH.
  - destruct (isspace (String a s)) eqn:Hspace; [|done].
    by destruct (Hs EmptyString (String a s)).
  - intros p e He ->. by eapply (Hs (String a p)).
Qed.

Lemma rstrip_idemp s : rstrip (rstrip s) = rstrip s.
Proof. apply rstrip_fixed. intros p e. apply rstrip_trimmed. Qed.

(** Whitespace at the end goes. *)
Lemma rstrip_spaces s w :
  rstrip w = EmptyString → rstrip (s +:+ w) = rstrip s.
Proof.
  intros Hw. induction s as [|a s IH].
  - by rewrite append_nil.
  - by rewrite append_cons, !rstrip_cons, IH.
Qed.

(** A separator of one byte before text that stays keeps what is before
    it. *)
Lemma rstrip_sep c sep t :
  (Ascii.N_of_ascii sep < 128)%N → rstrip t ≠ EmptyString →
  rstrip (c +:+ String sep t) = c +:+ String sep (rstrip t).
Proof.
  intros Hsep Ht. induction c as [|a c IH].
  - rewrite !append_nil, rstrip_cons. rewrite isspace_ascii with (sep := sep).
    + done.
    + done.
    + apply occurs_cons. by left.
    + destruct (rstrip t); [done | cbn; lia].
  - rewrite !append_cons, rstrip_cons, IH.
    rewrite isspace_ascii with (sep := sep).
    + done.
    + done.
    + apply occurs_cons. right. apply occurs_append. right.
      apply occurs_cons. by left.
    + cbn. rewrite length_append. cbn. lia.
Qed.

(** *** [lstrip] *)

Lemma lstrip_cons a s1 :
  lstrip (String a s1) =
  if isspace (String a EmptyString) then lstrip s1
  else
    match s1 with
    | EmptyString => String a s1
    | String b s2 =>
        if isspace (String a (String b EmptyString)) then lstrip s2
        else
          match s2 with
          | EmptyString => String a s1
          | String c s3 =>
              if isspace (String a (String b (String c EmptyString)))
              then lstrip s3
              else String a s1
          end
    end.
Proof. done. Qed.

(** [lstrip] stops where no whitespace character comes first, and takes
    one away where one does. *)
Lemma lstrip_cases s :
  (lstrip s = s ∧ ∀ e s', isspace e = true → s ≠ e +:+ s') ∨
  (∃ e s', isspace e = true ∧ s = e +:+ s' ∧ lstrip s = lstrip s').
Proof.
  assert (Hstop : ∀ s : string,
    (∀ a s1, s = String a s1 → isspace (String a EmptyString) = false) →
    (∀ a b s2, s = String a (String b s2) →
               isspace (String a (String b EmptyString)) = false) →
    (∀ a b c s3, s = String a (String b (String c s3)) →
                 isspace (String a (String b (String c EmptyString))) = false) →
    ∀ e s', isspace e = true → s ≠ e +:+ s').
  { intros s0 H1 H2 H3 e s' He ->.
    destruct e as [|x [|y [|z [|u e]]]]; try done.
    - by rewrite (H1 x s') in He.
    - by rewrite (H2 x y s') in He.
    - by rewrite (H3 x y z s') in He. }
  destruct s as [|a s1]; [left; split; [done |]; apply Hstop; done |].
  rewrite lstrip_cons.
  destruct (isspace (String a EmptyString)) eqn:H1.
  { right. by exists (String a EmptyString), s1. }
  destruct s1 as [|b s2].
  { left. split; [done |]. apply Hstop; intros; simplify_eq; done. }
  destruct (isspace (String a (String b EmptyString))) eqn:H2.
  { right. by exists (String a (String b EmptyString)), s2. }
  destruct s2 as [|c s3].
  { left. split; [done |]. apply Hstop; intros; simplify_eq; done. }
  destruct (isspace (String a (String b (String c EmptyString)))) eqn:H3.
  { right. by exists (String a (String b (String c EmptyString))), s3. }
  left. split; [done |]. apply Hstop; intros; simplify_eq; done.
Qed.

Lemma lstrip_suffix s : ∃ w, s = w +:+ lstrip s.
Proof.
  induction s as [s IH] using string_length_ind.
  destruct (lstrip_cases s) as [[-> _] | (e & s' & He & -> & ->)];
    [by exists EmptyString |].
  destruct (IH s') as [w Hw].
  - rewrite length_append. apply isspace_length in He as [He _].
    destruct e; [done | cbn; lia].
  - exists (e +:+ w). by rewrite append_assoc, <- Hw.
Qed.

Lemma lstrip_length s : (String.length (lstrip s) ≤ String.length s)%nat.
Proof.
  destruct (lstrip_suffix s) as [w Hw]. rewrite Hw at 2.
  rewrite length_append. lia.
Qed.

Lemma lstrip_fixed s :
  lstrip s = s ↔ ∀ e s', isspace e = true → s ≠ e +:+ s'.
Proof.
  destruct (lstrip_cases s) as [[Hs Hno] | (e & s' & He & Heq & Hs)];
    [done |].
  split.
  - intros Hfixed. exfalso. rewrite Hs in Hfixed.
    pose proof (lstrip_length s') as Hlen. rewrite Hfixed, Heq in Hlen.
    rewrite length_append in Hlen. apply isspace_length in He as [He _].
    destruct e; [done | cbn in Hlen; lia].
  - intros Hno. by destruct (Hno e s').
Qed.

Lemma lstrip_idemp s : lstrip (lstrip s) = lstrip s.
Proof.
  induction s as [s IH] using string_length_ind.
  destruct (lstrip_cases s) as [[Hs _] | (e & s' & He & -> & ->)];
    [by rewrite !Hs |].
  apply IH. rewrite length_append. apply isspace_length in He as [He _].
  destruct e; [done | cbn; lia].
Qed.

(** A separator of one byte after text that stays keeps what is after
    it. *)
Lemma lstrip_sep t sep r :
  lstrip t = t → t ≠ EmptyString → (Ascii.N_of_ascii sep < 128)%N →
  lstrip (t +:+ String sep r) = t +:+ String sep r.
Proof.
  intros Ht Hne Hsep. apply (proj2 (lstrip_fixed _)). intros e s' He Heq.
  pose proof (proj1 (lstrip_fixed t) Ht) as Hno. clear Ht. rename Hno into Ht.
  assert (Hfalse : ∀ e', occurs sep e' → (1 < String.length e')%nat →
                         isspace e' = true → False).
  { intros e' Hin Hlen He'. by rewrite (isspace_ascii e' sep) in He'. }
  destruct e as [|x [|y [|z [|u e]]]]; try done;
    destruct t as [|a [|b [|c t]]]; try done;
    rewrite ?append_cons, ?append_nil in Heq; simplify_eq;
    first [ by eapply (Ht _ _ He)
          | eapply Hfalse; [| |exact He];
            [rewrite !occurs_cons; auto | cbn; lia] ].
Qed.

(** *** [strip] *)

Lemma strip_occurs a s : occurs a (strip s) → occurs a s.
Proof.
  unfold strip. intros Ha.
  destruct (lstrip_suffix (rstrip s)) as [w Hw].
  destruct (rstrip_prefix s) as [w' Hw'].
  rewrite Hw'. apply occurs_append. left.
  rewrite Hw. apply occurs_append. by right.
Qed.

Lemma strip_idemp s : strip (strip s) = strip s.
Proof.
  unfold strip.
  assert (rstrip (lstrip (rstrip s)) = lstrip (rstrip s)) as ->.
  { apply rstrip_fixed. intros p e He Heq.
    destruct (lstrip_suffix (rstrip s)) as [w Hw].
    rewrite Heq, <- append_assoc in Hw. by eapply rstrip_trimmed. }
  apply lstrip_idemp.
Qed.

Lemma strip_fixed s : strip s = s → lstrip s = s ∧ rstrip s = s.
Proof.
  unfold strip. intros Hs.
  destruct (lstrip_suffix (rstrip s)) as [w Hw].
  destruct (rstrip_prefix s) as [w' Hw'].
  rewrite Hs in Hw.
  assert (String.length s = String.length (rstrip s +:+ w')) as Hlen
    by (by rewrite <- Hw').
  rewrite Hw, !length_append in Hlen.
  assert (w = EmptyString) as -> by (apply length_zero; lia).
  rewrite append_nil in Hw. split; [|done]. by rewrite Hw in Hs.
Qed.

(** A whitespace character begins with a byte up to 32 or from 194 on,
    and goes on with bytes from 128 to 191. *)
Lemma isspace_head x e :
  isspace (String x e) = true →
  (Ascii.N_of_ascii x ≤ 32 ∨ 194 ≤ Ascii.N_of_ascii x)%N.
Proof.
  destruct e as [|y [|z [|u e]]]; try done;
    unfold isspace; cbv zeta; bytes_of_isspace;
    intros He; repeat (destruct_or! || destruct_and!); lia.
Qed.

Lemma isspace_tail x e a :
  isspace (String x e) = true → occurs a e →
  (128 ≤ Ascii.N_of_ascii a < 192)%N.
Proof.
  destruct e as [|y [|z [|u e]]]; try done;
    [by intros _ ?%occurs_nil | |];
    unfold isspace; cbv zeta; bytes_of_isspace;
    intros He; rewrite !occurs_cons;
    intros Ha; repeat (destruct_or! || destruct_and!);
    try (by apply occurs_nil in Ha); subst; lia.
Qed.

Lemma rstrip_space c : isspace c = true → rstrip c = EmptyString.
Proof.
  destruct c as [|x e]; [done |]. intros Hc. rewrite rstrip_cons.
  assert (rstrip e = e) as ->; [|by rewrite Hc].
  apply rstrip_fixed. intros p [|h e'] He' ->; [done |].
  apply isspace_head in He'.
  assert (128 ≤ Ascii.N_of_ascii h < 192)%N; [|lia].
  apply (isspace_tail x (p +:+ String h e')); [done |].
  apply occurs_append. right. apply occurs_cons. by left.
Qed.

(** A line of whitespace only is stripped to nothing. *)
Lemma strip_whitespace (cs : list string) :
  Forall (λ c, isspace c = true) cs →
  strip (foldr String.append EmptyString cs) = EmptyString.
Proof.
  intros Hcs. unfold strip.
  assert (rstrip (foldr String.append EmptyString cs) = EmptyString) as ->;
    [|done].
  induction Hcs as [|c cs Hc _ IH]; [done |]. cbn [foldr].
  rewrite rstrip_spaces by done. by apply rstrip_space.
Qed.


(** No-break space and em space are whitespace as tab and space are; a
    byte of their encodings alone is not. *)
Example strip_unicode :
  strip (String (Ascii.ascii_of_N 32)
           ("10" +:+ String (Ascii.ascii_of_N 194)
                       (String (Ascii.ascii_of_N 160) EmptyString)))
  = "10" ∧
  strip ("10" +:+ String (Ascii.ascii_of_N 226)
                    (String (Ascii.ascii_of_N 128)
                       (String (Ascii.ascii_of_N 131)
                          (String (Ascii.ascii_of_N 9) EmptyString))))
  = "10" ∧
  strip ("10" +:+ String (Ascii.ascii_of_N 195)
                    (String (Ascii.ascii_of_N 160) EmptyString))
  = "10" +:+ String (Ascii.ascii_of_N 195)
               (String (Ascii.ascii_of_N 160) EmptyString).
Proof. by vm_compute. Qed.

(** *** [split] *)

Lemma split_not_nil sep s : split sep s ≠ [].
Proof.
  destruct s as [|a s]; cbn; [done |].
  case_bool_decide; [done |]. by destruct (split sep s).
Qed.

Lemma split_occurs sep s piece a :
  piece ∈ split sep s → occurs a piece → occurs a s ∧ a ≠ sep.
Proof.
  revert piece. induction s as [|b s IH]; intros piece; cbn.
  - intros ->%list_elem_of_singleton ?%occurs_nil. done.
  - case_bool_decide as Hsep.
    + intros [-> | Hin]%elem_of_cons Ha; [by apply occurs_nil in Ha |].
      destruct (IH piece Hin Ha). split; [|done]. apply occurs_cons. by right.
    + destruct (split sep s) as [|first pieces] eqn:Hsplit;
        [by apply split_not_nil in Hsplit |].
      intros [-> | Hin]%elem_of_cons Ha.
      * apply occurs_cons in Ha as [-> | Ha].
        -- split; [apply occurs_cons; by left | done].
        -- destruct (IH first (ltac:(by left)) Ha).
           split; [|done]. apply occurs_cons. by right.
      * destruct (IH piece (ltac:(by right)) Ha).
        split; [|done]. apply occurs_cons. by right.
Qed.

(** *** The identifiers read *)

Lemma line_taxids_elem_of line x :
  x ∈ line_taxids line ↔
  ∃ field piece, last (split tab (strip line)) = Some field ∧
                 piece ∈ split semicolon field ∧
                 x = strip piece ∧ x ≠ EmptyString.
Proof.
  unfold line_taxids. destruct (last (split tab (strip line))) as [field|].
  - rewrite list_elem_of_omap. split.
    + intros (piece & Hin & Hx). case_bool_decide; [done |].
      injection Hx as <-. by exists field, piece.
    + intros (? & piece & [= <-] & Hin & -> & Hne). exists piece.
      split; [done |]. by rewrite bool_decide_eq_false_2.
  - split; [by intros ?%elem_of_nil | by intros (? & ? & ? & _)].
Qed.

Lemma distinct_taxids_elem_of lines x :
  x ∈ distinct_taxids lines ↔ ∃ line, line ∈ lines ∧ x ∈ line_taxids line.
Proof.
  unfold distinct_taxids.
  assert (Hfold : ∀ taxids : gset string,
    x ∈ foldl (λ taxids line, taxids ∪ list_to_set (line_taxids line))
          taxids lines ↔
    x ∈ taxids ∨ ∃ line, line ∈ lines ∧ x ∈ line_taxids line).
  { induction lines as [|line lines IH]; intros taxids; cbn [foldl].
    - split; [by left | intros [? | (? & ?%elem_of_nil & _)]; done].
    - rewrite IH, elem_of_union, elem_of_list_to_set. split.
      + intros [[? | ?] | (line' & ? & ?)]; [by left | right..].
        * exists line. split; [by left | done].
        * exists line'. split; [by right | done].
      + intros [? | (line' & [-> | ?]%elem_of_cons & ?)].
        * by left; left.
        * by left; right.
        * right. by exists line'. }
  rewrite Hfold. split; [intros [?%not_elem_of_empty | ?]; done | by right].
Qed.

(** X21: an identifier read from the table is not empty, has no
    whitespace at its ends and holds neither a semicolon nor a tab; its
    characters are characters of one of the lines. *)
Theorem distinct_taxids_well_formed lines x :
  x ∈ distinct_taxids lines →
  x ≠ EmptyString ∧ strip x = x ∧
  ¬ occurs semicolon x ∧ ¬ occurs tab x ∧
  ∃ line, line ∈ lines ∧ ∀ a, occurs a x → occurs a line.
Proof.
  intros (line & Hline & Hx)%distinct_taxids_elem_of.
  apply line_taxids_elem_of in Hx as (field & piece & Hfield & Hpiece & -> & Hne).
  apply last_Some_elem_of in Hfield.
  split_and!; [done | apply strip_idemp | | |].
  - intros Ha%strip_occurs. by destruct (split_occurs _ _ _ _ Hpiece Ha).
  - intros Ha%strip_occurs. destruct (split_occurs _ _ _ _ Hpiece Ha) as [Ha' _].
    by destruct (split_occurs _ _ _ _ Hfield Ha').
  - exists line. split; [done |]. intros a Ha%strip_occurs.
    destruct (split_occurs _ _ _ _ Hpiece Ha) as [Ha' _].
    destruct (split_occurs _ _ _ _ Hfield Ha') as [Ha'' _].
    by apply strip_occurs.
Qed.

(** X22: the identifiers of a table are those of its lines, whatever the
    order of the lines and however often a line comes; a line that [strip]
    leaves empty, which is a line of whitespace only, and so an empty table,
    gives none. *)
Theorem distinct_taxids_lines lines lines' blank :
  distinct_taxids (lines ++ lines')
    = distinct_taxids lines ∪ distinct_taxids lines' ∧
  distinct_taxids [] = ∅ ∧
  (strip blank = EmptyString →
   distinct_taxids (lines ++ blank :: lines') = distinct_taxids (lines ++ lines')).
Proof.
  split_and!.
  - apply set_eq. intros x.
    rewrite elem_of_union, !distinct_taxids_elem_of. split.
    + intros (line & [? | ?]%elem_of_app & ?); [left | right]; by exists line.
    + intros [(line & ? & ?) | (line & ? & ?)]; exists line;
        (split; [apply elem_of_app; by auto | done]).
  - done.
  - intros Hblank. apply set_eq. intros x. rewrite !distinct_taxids_elem_of.
    assert (line_taxids blank = []) as Hnone.
    { unfold line_taxids. by rewrite Hblank. }
    setoid_rewrite elem_of_app. setoid_rewrite elem_of_cons. split.
    + intros (line & [? | [-> | ?]] & Hx); [eauto | | eauto].
      rewrite Hnone in Hx. by apply elem_of_nil in Hx.
    + intros (line & [? | ?] & Hx); eauto.
Qed.

(** *** The search as a whole *)

Section run.
Context {Sequence Net Tree Node : Type} `{TaxonomyTree Tree Node}.
Variable blastn : Sequence → M Net (list string).

Local Abbreviation run_localblast := (run_localblast blastn).

(** X23: [run_localblast] passes on what goes wrong: a failure of the
    search is raised again, after one ERROR record when it is a
    CalledProcessError and with nothing logged for any other exception; once
    the table is read, the result, or the exception, is that of
    [collect_lineages] on the identifiers of the table, and nothing is
    logged. *)
Theorem run_localblast_outcome config sequence (tree : Tree) (w : World) :
  (∀ e n, blastn sequence (net w) = (inl e, n) →
          run_localblast config sequence tree w =
            (inl e,
             {| net := n;
                logging := logging w ++
                  (if is_CalledProcessError e
                   then [mkLogRecord ERROR
                           ("Error running local BLASTN: " +:+ str_exn e)]
                   else []) |})) ∧
  (∀ lines n, blastn sequence (net w) = (inr lines, n) →
              run_localblast config sequence tree w =
                (collect_lineages config (distinct_taxids lines) tree,
                 {| net := n; logging := logging w |})).
Proof.
  split.
  - intros e n Hrun. unfold LocalBlast.run_localblast.
    cbv [try_except mbind M_bind Py.bind on_net]. rewrite Hrun.
    destruct (is_CalledProcessError e); cbn; [done |]. by rewrite app_nil_r.
  - intros lines n Hrun. unfold LocalBlast.run_localblast.
    cbv [try_except mbind M_bind Py.bind on_net]. rewrite Hrun.
    destruct (collect_lineages config (distinct_taxids lines) tree) as [e|l]
      eqn:Hcollect; [|done].
    by rewrite (TaxonomyLaws.collect_lineages_inl _ _ _ _ Hcollect).
Qed.
End run.

(** *** Reading back a line of the table *)

Lemma split_plain sep s : ¬ occurs sep s → split sep s = [s].
Proof.
  induction s as [|a s IH]; intros Hsep; cbn; [done |].
  rewrite bool_decide_eq_false_2
    by (intros ->; apply Hsep, occurs_cons; by left).
  rewrite IH; [done |]. intros ?. apply Hsep, occurs_cons. by right.
Qed.

(** [(c + sep + s).split(sep) == c.split(sep) + s.split(sep)] *)
Lemma split_append sep c s :
  split sep (c +:+ String sep s) = split sep c ++ split sep s.
Proof.
  induction c as [|a c IH].
  - rewrite append_nil. cbn. by rewrite bool_decide_eq_true_2.
  - rewrite append_cons. cbn. case_bool_decide; rewrite IH; [done |].
    destruct (split sep c) eqn:Hc; [by apply split_not_nil in Hc | done].
Qed.

Lemma last_split_append sep c s :
  last (split sep (c +:+ String sep s)) = last (split sep s).
Proof.
  rewrite split_append, last_app.
  destruct (last (split sep s)) eqn:Hlast; [done |].
  apply last_None in Hlast. by apply split_not_nil in Hlast.
Qed.

Lemma join_cons sep piece pieces :
  pieces ≠ [] →
  join sep (piece :: pieces) = piece +:+ String sep (join sep pieces).
Proof. by destruct pieces. Qed.

Lemma split_join sep pieces :
  pieces ≠ [] → Forall (λ piece, ¬ occurs sep piece) pieces →
  split sep (join sep pieces) = pieces.
Proof.
  intros Hne Hpieces. induction Hpieces as [|piece pieces Hpiece _ IH]; [done |].
  destruct pieces as [|piece' pieces].
  - by apply split_plain.
  - rewrite join_cons, split_append, split_plain, IH by done. done.
Qed.

Lemma occurs_join a sep pieces :
  occurs a (join sep pieces) →
  a = sep ∨ ∃ piece, piece ∈ pieces ∧ occurs a piece.
Proof.
  induction pieces as [|piece pieces IH]; [by intros ?%occurs_nil |].
  destruct pieces as [|piece' pieces].
  - intros Ha. right. exists piece. split; [by left | done].
  - rewrite join_cons by done.
    intros [Ha | [-> | Ha]%occurs_cons]%occurs_append.
    + right. exists piece. split; [by left | done].
    + by left.
    + destruct (IH Ha) as [? | (piece'' & ? & ?)]; [by left | right].
      exists piece''. split; [by right | done].
Qed.

(** The columns, each followed by a tab, then [field]. *)
Lemma join_snoc sep columns field :
  join sep (columns ++ [field])
  = foldr (λ column rest, column +:+ String sep rest) field columns.
Proof.
  induction columns as [|column columns IH]; [done |].
  cbn [app foldr]. rewrite join_cons by (by destruct columns). by rewrite IH.
Qed.

Lemma tab_ascii : (Ascii.N_of_ascii tab < 128)%N.
Proof. by vm_compute. Qed.

Lemma semicolon_ascii : (Ascii.N_of_ascii semicolon < 128)%N.
Proof. by vm_compute. Qed.

(** [lstrip] before the last column: it stops in a column before it, or
    goes on into it. *)
Lemma lstrip_column c rest :
  last (split tab (lstrip (c +:+ String tab rest))) = last (split tab rest) ∨
  last (split tab (lstrip (c +:+ String tab rest)))
  = last (split tab (lstrip rest)).
Proof.
  induction c as [c IH] using string_length_ind.
  destruct (lstrip_cases (c +:+ String tab rest))
    as [[-> _] | (e & s' & He & Heq & ->)].
  { left. apply last_split_append. }
  assert (Hfalse : ∀ e', occurs tab e' → (1 < String.length e')%nat →
                         isspace e' = true → False).
  { intros e' Hin Hlen He'.
    by rewrite (isspace_ascii e' tab tab_ascii) in He'. }
  destruct e as [|x [|y [|z [|u e]]]]; try done;
    [ destruct c as [|a c]
    | destruct c as [|a [|b c]]
    | destruct c as [|a [|b [|d c]]] ];
    rewrite ?append_cons, ?append_nil in Heq; simplify_eq;
    first [ by right
          | apply IH; cbn; lia
          | exfalso; eapply Hfalse; [| |exact He];
            [rewrite !occurs_cons; auto | cbn; lia] ].
Qed.

Lemma line_field columns field :
  field ≠ EmptyString → lstrip field = field → rstrip field = field →
  ¬ occurs tab field →
  last (split tab (strip (join tab (columns ++ [field])
                            +:+ String (Ascii.ascii_of_N 10) EmptyString)))
  = Some field.
Proof.
  intros Hne Hleft Hright Htab. rewrite join_snoc.
  set (row := foldr (λ column rest, column +:+ String tab rest) field).
  assert (Hrstrip : ∀ columns,
    rstrip (row columns) = row columns ∧ row columns ≠ EmptyString).
  { clear columns. induction columns as [|column columns [IH IHne]];
      cbn [row foldr]; [done |].
    fold (row columns). split; [|by destruct column].
    rewrite rstrip_sep, IH; [done | apply tab_ascii | by rewrite IH]. }
  assert (Hlast : ∀ columns, last (split tab (row columns)) = Some field).
  { clear columns. induction columns as [|column columns IH]; cbn [row foldr].
    - by rewrite split_plain.
    - fold (row columns). by rewrite last_split_append. }
  unfold strip. rewrite rstrip_spaces by done.
  rewrite (proj1 (Hrstrip columns)).
  induction columns as [|column columns IH]; cbn [row foldr].
  - rewrite Hleft. by rewrite split_plain.
  - fold (row columns).
    destruct (lstrip_column column (row columns)) as [-> | ->]; [apply Hlast | done].
Qed.

(** The last column: the identifiers with semicolons between them. *)
Lemma join_plain taxids :
  taxids ≠ [] → Forall plain taxids →
  join semicolon taxids ≠ EmptyString ∧
  lstrip (join semicolon taxids) = join semicolon taxids ∧
  rstrip (join semicolon taxids) = join semicolon taxids ∧
  ¬ occurs tab (join semicolon taxids).
Proof.
  intros Hne Hplain.
  induction Hplain as [|taxid taxids (Htaxid & Hstrip & Hsemi & Htab) Hplain IH];
    [done |].
  apply strip_fixed in Hstrip as [Hleft Hright].
  destruct taxids as [|taxid' taxids]; [done |].
  destruct IH as (IHne & IHleft & IHright & IHtab); [done |].
  rewrite join_cons by done. split_and!.
  - by destruct taxid.
  - by apply lstrip_sep; [| |apply semicolon_ascii].
  - rewrite rstrip_sep, IHright; [done | apply semicolon_ascii | by rewrite IHright].
  - rewrite occurs_append, occurs_cons. intros [? | [? | ?]]; done.
Qed.

(** X24: what the reader gets from a line of the table is what is
    written in its last column: for identifiers that are not empty, have no
    whitespace at their ends and hold no semicolon and no tab, joined by
    semicolons, after any columns, the line reads back as these
    identifiers, in their order. *)
Theorem line_taxids_table_line columns taxids :
  taxids ≠ [] → Forall plain taxids →
  line_taxids (table_line columns taxids) = taxids.
Proof.
  intros Hne Hplain. unfold line_taxids, table_line.
  destruct (join_plain taxids Hne Hplain) as (Hfield & Hleft & Hright & Htab).
  rewrite line_field by done.
  rewrite split_join; [|done|].
  - clear Hne Hfield Hleft Hright Htab.
    induction Hplain as [|taxid taxids (Htaxid & Hstrip & _) _ IH]; [done |].
    cbn [omap list_omap]. rewrite Hstrip.
    rewrite bool_decide_eq_false_2 by done. by rewrite IH.
  - eapply Forall_impl; [exact Hplain |]. by intros taxid (_ & _ & ? & _).
Qed.

Lemma distinct_taxids_well_formed_witness :
  "11" ≠ EmptyString ∧ strip "11" = "11" ∧
  ¬ occurs semicolon "11" ∧ ¬ occurs tab "11" ∧
  ∃ line, line ∈ Remote.table ∧ ∀ a, occurs a "11" → occurs a line.
Proof.
  apply (distinct_taxids_well_formed Remote.table "11").
  apply (bool_decide_unpack _). vm_compute. exact I.
Defined.

Lemma line_taxids_table_line_witness :
  line_taxids (table_line ["query1"; "gb|MN123456|"; "99.1"] ["10"; "11"])
  = ["10"; "11"].
Proof.
  apply line_taxids_table_line; [done |].
  apply Forall_cons_2; [|apply Forall_cons_2; [|apply Forall_nil_2]];
    (split_and!; [done | by vm_compute | |]);
    unfold occurs; apply (bool_decide_unpack _); by vm_compute.
Defined.
End LocalBlastLaws.
